(** * create-exercise.js: a shallow embedding and its verified properties

    The script [create-exercise.js] allocates the next exercise number from
    the entries of the [projects] directory, runs the Angular generator,
    registers two npm scripts in [package.json] and writes a README.

    Modelling conventions.
    - A JavaScript string is a [string], a sequence of code units, each held
      in an [ascii].  Comparison and the digit classes are exact on such
      strings.  [toUpperCase], which follows the case mapping of Unicode, is
      a parameter of the model.  The symbols of the console messages stand
      as their UTF-8 bytes.
    - The numbers the script computes are [NaN], [-Infinity] or a double
      that is a natural number.  [parseInt] and [+] round to the nearest
      double, a tie going to the even significand; [String] writes the
      shortest digits that read back as the double, with an exponent from
      10^21 on.  Up to 2^53 this is the arithmetic of the naturals.
    - An ordinary object with string values is the list of its own
      properties in the order [Object.keys] enumerates them: array indices
      first, by value, then the other keys as created.  Assignment follows
      [OrdinarySet], including the inherited setter of [__proto__].
    - [package.json] is held as the members of its [scripts] in the order of
      the text, and the remaining members; white space is not modelled.  A
      text whose [scripts] is [null], a number, a boolean, a string or an
      array, or which is no object, is held as such.
    - Paths are joined as [path.join] joins them on POSIX, [.] and [..]
      resolved.
    - The file system, the console and the generator are an explicit state
      threaded through a small monad with exceptions and [process.exit].
      Every effect of the script is recorded as an event.  The README is
      written when the listing shows its directory; what a write of it does
      otherwise is a parameter of the model. *)

From Stdlib Require Import List String Ascii NArith Bool Lia Arith.
From Stdlib Require Import Sorting.Sorted Sorting.Permutation.
Import ListNotations.
Open Scope string_scope.
Open Scope N_scope.

(** ** JavaScript strings *)

Module JSString.

Definition LF : string := String (ascii_of_nat 10) EmptyString.

(** [s.startsWith(p)] *)
Fixpoint startsWith (p s : string) : bool :=
  match p with
  | EmptyString => true
  | String a p' =>
      match s with
      | EmptyString => false
      | String b s' => if Ascii.eqb a b then startsWith p' s' else false
      end
  end.

(** [s.charAt(i)]: the one-unit string at index [i], or the empty string. *)
Fixpoint charAt (i : nat) (s : string) : string :=
  match s with
  | EmptyString => EmptyString
  | String c s' =>
      match i with
      | O => String c EmptyString
      | S i' => charAt i' s'
      end
  end.

(** [s.slice(i)] for a non-negative [i]. *)
Fixpoint slice (i : nat) (s : string) : string :=
  match i with
  | O => s
  | S i' =>
      match s with
      | EmptyString => EmptyString
      | String _ s' => slice i' s'
      end
  end.

(** [s.replace(/-/g, ' ')] *)
Fixpoint replace_hyphens (s : string) : string :=
  match s with
  | EmptyString => EmptyString
  | String c s' =>
      String (if Ascii.eqb c "-" then " "%char else c) (replace_hyphens s')
  end.

(** [pad.repeat(k)] *)
Fixpoint repeat (pad : string) (k : nat) : string :=
  match k with
  | O => EmptyString
  | S k' => pad ++ repeat pad k'
  end.

(** [s.padStart(target, pad)]: [s] itself when it is long enough or the
    filler is empty, else the filler repeated and cut to the missing
    length, then [s]. *)
Definition padStart (target : nat) (pad s : string) : string :=
  let len := String.length s in
  if (target <=? len)%nat then s
  else match pad with
       | EmptyString => s
       | _ => substring 0 (target - len) (repeat pad (target - len)) ++ s
       end.

(** The default comparison of [Array.prototype.sort]: code units,
    left to right; a proper prefix comes first. *)
Fixpoint leb (a b : string) : bool :=
  match a, b with
  | EmptyString, _ => true
  | String _ _, EmptyString => false
  | String x a', String y b' =>
      let nx := N_of_ascii x in
      let ny := N_of_ascii y in
      if nx <? ny then true
      else if ny <? nx then false
      else leb a' b'
  end.

End JSString.

(** ** Decimal digits, [parseInt] and [String(n)] *)

Module Decimal.

Definition is_digit (c : ascii) : bool :=
  let n := N_of_ascii c in (48 <=? n) && (n <=? 57).

Definition digit_value (c : ascii) : N := N_of_ascii c - 48.

Definition digit_char (d : N) : ascii := ascii_of_N (48 + d).

(** The longest run of decimal digits at the head of a string, and what
    follows it. *)
Fixpoint span_digits (s : string) : string * string :=
  match s with
  | EmptyString => (EmptyString, EmptyString)
  | String c s' =>
      if is_digit c
      then let (ds, rest) := span_digits s' in (String c ds, rest)
      else (EmptyString, s)
  end.

Fixpoint all_digits (s : string) : bool :=
  match s with
  | EmptyString => true
  | String c s' => is_digit c && all_digits s'
  end.

(** The value of a digit string read left to right from [acc]. *)
Fixpoint value_from (acc : N) (s : string) : N :=
  match s with
  | EmptyString => acc
  | String c s' => value_from (10 * acc + digit_value c) s'
  end.

(** The digits of [n], most significant first, in front of [acc]. *)
Fixpoint digits_from (fuel : nat) (n : N) (acc : string) : string :=
  match fuel with
  | O => acc
  | S fuel' =>
      let acc' := String (digit_char (n mod 10)) acc in
      if n <? 10 then acc' else digits_from fuel' (n / 10) acc'
  end.

(** The decimal numeral of [n]; the number of binary digits of [n] is
    enough fuel. *)
Definition numeral (n : N) : string :=
  digits_from (S (N.to_nat (N.log2 n))) n EmptyString.

End Decimal.

(** ** JavaScript numbers *)

(** The numbers the script computes: [NaN], [-Infinity] and the doubles
    that are natural numbers, [Fin n] for the double of value [n].  Exponent
    overflow needs a numeral of 309 digits, more than a directory entry (at
    most 255 units) can hold, and is not modelled. *)
Inductive number : Type :=
| NaN
| NegInfinity
| Fin (n : N).

Module Number.

(** The double nearest to a natural number, a tie going to the even
    significand of 53 bits: the value of a numeral and of an exact sum. *)
Definition round (v : N) : N :=
  if v <? 2 ^ 53 then v
  else
    let e := N.log2 v - 52 in
    let q := v / 2 ^ e in
    let r := v mod 2 ^ e in
    let half := 2 ^ (e - 1) in
    let q' := if r <? half then q
              else if half <? r then q + 1
              else if N.even q then q else q + 1 in
    q' * 2 ^ e.

(** [a + 1] *)
Definition succ (a : number) : number :=
  match a with
  | Fin n => Fin (round (n + 1))
  | other => other
  end.

(** [k + a] for a finite [k] *)
Definition add (k : N) (a : number) : number :=
  match a with
  | Fin n => Fin (round (k + n))
  | other => other
  end.

Definition max2 (a b : number) : number :=
  match a, b with
  | NaN, _ | _, NaN => NaN
  | NegInfinity, x | x, NegInfinity => x
  | Fin x, Fin y => Fin (N.max x y)
  end.

(** [Math.max(...xs)]: [-Infinity] for no argument, [NaN] as soon as one
    argument is [NaN]. *)
Definition Math_max (xs : list number) : number :=
  fold_right max2 NegInfinity xs.

(** The multiples of [p] next to [x], the nearer first; of two equally
    near, the one with the even quotient first. *)
Definition decimals_at (x p : N) : list N :=
  let lo := (x / p) * p in
  let hi := lo + p in
  if lo =? x then [x]
  else if x - lo <? hi - x then [lo; hi]
  else if hi - x <? x - lo then [hi; lo]
  else if N.even (x / p) then [lo; hi] else [hi; lo].

(** The decimal with the fewest significant digits, at most 17, whose
    double is [x], and the nearest to [x] among these: the digits that
    [Number::toString] writes. *)
Definition shortest (x : N) : N :=
  let d := String.length (Decimal.numeral x) in
  match find (fun v => round v =? x)
          (flat_map (fun k => decimals_at x (10 ^ N.of_nat (d - k)))
             (seq 1 17)) with
  | Some v => v
  | None => x
  end.

Fixpoint strip_zeros (s : string) : string :=
  match s with
  | EmptyString => EmptyString
  | String c s' =>
      match strip_zeros s' with
      | EmptyString =>
          if Ascii.eqb c "0" then EmptyString else String c EmptyString
      | t => String c t
      end
  end.

(** The text of a decimal [v]: all its digits below [10^21], else the
    digits without the final zeros, a point after the first of them, and
    the exponent. *)
Definition render (v : N) : string :=
  if v <? 10 ^ 21 then Decimal.numeral v
  else
    let digits := Decimal.numeral v in
    match strip_zeros digits with
    | EmptyString => digits
    | String c EmptyString =>
        String c ("e+" ++ Decimal.numeral (N.of_nat (String.length digits - 1)))
    | String c rest =>
        String c ("." ++ rest ++ "e+"
                    ++ Decimal.numeral (N.of_nat (String.length digits - 1)))
    end.

(** [String(a)] *)
Definition to_string (a : number) : string :=
  match a with
  | NaN => "NaN"
  | NegInfinity => "-Infinity"
  | Fin n => render (shortest n)
  end.

(** [parseInt(s)] on a string that starts with neither white space, a sign
    nor a radix prefix: the double of the value of the leading digits,
    [NaN] when there is none. *)
Definition parseInt (s : string) : number :=
  match fst (Decimal.span_digits s) with
  | EmptyString => NaN
  | ds => Fin (round (Decimal.value_from 0 ds))
  end.

End Number.

(** ** Ordinary objects with string values *)

Module JSObject.

(** The own properties, in the order of [Object.keys]: array-index keys
    first, by ascending numeric value, then the other keys in the order
    of their creation. *)
Definition t : Type := list (string * string).

Definition empty : t := [].

Definition keys (o : t) : list string := map fst o.

Fixpoint get (k : string) (o : t) : option string :=
  match o with
  | [] => None
  | (k', v) :: o' => if String.eqb k k' then Some v else get k o'
  end.

Definition has_own (k : string) (o : t) : bool :=
  existsb (String.eqb k) (keys o).

(** An array index is the canonical numeral of an integer below
    [2^32 - 1]. *)
Definition is_array_index (k : string) : bool :=
  match k with
  | EmptyString => false
  | String c rest =>
      Decimal.all_digits k
      && (negb (Ascii.eqb c "0") || String.eqb rest EmptyString)
      && (Decimal.value_from 0 k <? 4294967295)
  end.

Definition index_value (k : string) : N := Decimal.value_from 0 k.

Fixpoint replace (k v : string) (o : t) : t :=
  match o with
  | [] => []
  | (k', v') :: o' =>
      if String.eqb k k' then (k', v) :: o' else (k', v') :: replace k v o'
  end.

(** A new array-index property goes after the smaller indices. *)
Fixpoint insert_index (k v : string) (o : t) : t :=
  match o with
  | [] => [(k, v)]
  | (k', v') :: o' =>
      if is_array_index k' && (index_value k' <? index_value k)
      then (k', v') :: insert_index k v o'
      else (k, v) :: o
  end.

(** [CreateDataProperty]: what [JSON.parse] does for each member. *)
Definition define (k v : string) (o : t) : t :=
  if has_own k o then replace k v o
  else if is_array_index k then insert_index k v o
  else (o ++ [(k, v)])%list.

(** [o[k] = v] on an object whose prototype is [Object.prototype]: an own
    property is overwritten where it stands; with no own property
    [__proto__] the assignment reaches the inherited setter, which ignores
    a string; any other key is created. *)
Definition set (k v : string) (o : t) : t :=
  if has_own k o then replace k v o
  else if String.eqb k "__proto__" then o
  else define k v o.

(** The object [JSON.parse] builds from the members of an object text,
    read left to right. *)
Definition JSON_parse (members : list (string * string)) : t :=
  fold_left (fun o m => define (fst m) (snd m) o) members empty.

(** The members [JSON.stringify] writes. *)
Definition JSON_stringify (o : t) : list (string * string) := o.

Fixpoint insert_sorted (x : string) (l : list string) : list string :=
  match l with
  | [] => [x]
  | y :: l' => if JSString.leb x y then x :: l else y :: insert_sorted x l'
  end.

(** [keys.sort()] with the default comparison; stable. *)
Definition sort (l : list string) : list string :=
  fold_right insert_sorted [] l.

End JSObject.

(** ** Stage 1: the identifier allocator (lines 45-65) *)

(** [dir.match(/^exercise-(\d+)-/)]: the capture group, when the pattern
    matches.  The greedy [\d+] takes the whole run of digits; giving some
    back cannot help, the next unit would be a digit and not the hyphen. *)
Definition match_exercise (dir : string) : option string :=
  if JSString.startsWith "exercise-" dir then
    let (ds, rest) := Decimal.span_digits (JSString.slice 9 dir) in
    match ds with
    | EmptyString => None
    | _ => if JSString.startsWith "-" rest then Some ds else None
    end
  else None.

(** The callback of [.map]: the number of an entry. *)
Definition entry_number (dir : string) : number :=
  match match_exercise dir with
  | Some ds => Number.parseInt ds
  | None => Fin 0
  end.

(** The array [projects] of line 49. *)
Definition project_numbers (entries : list string) : list number :=
  map entry_number (filter (JSString.startsWith "exercise-") entries).

(** [nextNumber] after line 60; [None] is an absent [projects] directory. *)
Definition nextNumber (projectsDir : option (list string)) : number :=
  match projectsDir with
  | None => Fin 1
  | Some entries =>
      let projects := project_numbers entries in
      if (0 <? List.length projects)%nat
      then Number.succ (Number.Math_max projects)
      else Fin 1
  end.

Definition paddedNumber (nextNumber : number) : string :=
  JSString.padStart 2 "0" (Number.to_string nextNumber).

Definition fullExerciseName (nextNumber : number) (exerciseName : string) : string :=
  "exercise-" ++ paddedNumber nextNumber ++ "-" ++ exerciseName.

Definition port (nextNumber : number) : number := Number.add 4200 nextNumber.

(** The command line of line 78. *)
Definition generate_command (fullExerciseName : string) : string :=
  "ng generate application " ++ fullExerciseName ++ " --routing=false --style=css".

(** ** Stage 3: the scripts of package.json (lines 92-101) *)

Definition shortName (nextNumber : number) : string :=
  "ex" ++ paddedNumber nextNumber.

Definition start_key (n : number) : string := "start:" ++ shortName n.
Definition build_key (n : number) : string := "build:" ++ shortName n.

Definition start_command (n : number) (exerciseName : string) : string :=
  "ng serve " ++ fullExerciseName n exerciseName
    ++ " --port " ++ Number.to_string (port n).

Definition build_command (n : number) (exerciseName : string) : string :=
  "ng build " ++ fullExerciseName n exerciseName.

(** Lines 93-94. *)
Definition add_scripts (n : number) (exerciseName : string)
    (scripts : JSObject.t) : JSObject.t :=
  JSObject.set (build_key n) (build_command n exerciseName)
    (JSObject.set (start_key n) (start_command n exerciseName) scripts).

(** Lines 97-100: the sorted keys are copied into a fresh object.  Each key
    is an own property of [scripts], so the lookup finds a value. *)
Definition sortedScripts (scripts : JSObject.t) : JSObject.t :=
  fold_left
    (fun sorted key =>
       match JSObject.get key scripts with
       | Some v => JSObject.set key v sorted
       | None => sorted
       end)
    (JSObject.sort (JSObject.keys scripts)) JSObject.empty.

Definition update_scripts (n : number) (exerciseName : string)
    (scripts : JSObject.t) : JSObject.t :=
  sortedScripts (add_scripts n exerciseName scripts).

(** ** Stage 4: the README (lines 112-141) *)

Section Readme.

(** [String.prototype.toUpperCase] of the host: the case mapping of
    Unicode, which is not unit by unit (it turns the one unit U+00DF into
    the two units [SS]).  The script applies it to the one-unit string
    [charAt(0)]; the model takes the function as given. *)
Variable toUpperCase : string -> string.

(** The title of line 112. *)
Definition humanize (exerciseName : string) : string :=
  toUpperCase (JSString.charAt 0 exerciseName)
    ++ JSString.replace_hyphens (JSString.slice 1 exerciseName).

Definition heading (n : number) (exerciseName : string) : string :=
  "Exercise " ++ paddedNumber n ++ ": " ++ humanize exerciseName.

Definition unlines (ls : list string) : string :=
  fold_right (fun l acc => l ++ JSString.LF ++ acc) EmptyString ls.

Definition exerciseReadme (n : number) (exerciseName : string) : string :=
  unlines
    [ "# " ++ heading n exerciseName;
      "";
      "## Description";
      "";
      "Add your exercise description here.";
      "";
      "## Running This Exercise";
      "";
      "```bash";
      "npm run start:" ++ shortName n;
      "```";
      "";
      "Then open http://localhost:" ++ Number.to_string (port n)
        ++ " in your browser.";
      "";
      "## Learning Objectives";
      "";
      "- Objective 1";
      "- Objective 2";
      "- Objective 3";
      "";
      "## Tasks";
      "";
      "- [ ] Task 1";
      "- [ ] Task 2";
      "- [ ] Task 3";
      "";
      "## Resources";
      "";
      "- [Angular Documentation](https://angular.dev)" ].

End Readme.

(** ** The world of the script *)

(** The members of [package.json]: those of [scripts] in the order of the
    text ([None]: no such member), and the rest, which the script only
    carries along. *)
Record PackageJson : Type := mkPackageJson {
  scripts : option (list (string * string));
  other_members : list (string * string)
}.

(** A [scripts] member that is no ordinary object: [null], a number or a
    boolean, a string, or an array, given by its elements. *)
Inductive odd_scripts : Type :=
| ScriptsNull
| ScriptsAtom
| ScriptsString (text : string)
| ScriptsArray (elements : list string).

(** The other values of a JSON text: an object whose [scripts] is no
    ordinary object, given with its remaining members; [null]; or a number,
    a string, a boolean or an array. *)
Inductive other_json : Type :=
| OddScripts (s : odd_scripts) (others : list (string * string))
| JsonNull
| JsonAtom.

(** What reading and parsing [package.json] meets: no file, a text that
    [JSON.parse] rejects with a message, an object whose [scripts] is
    absent or an ordinary object, or another value. *)
Inductive manifest_file : Type :=
| NoFile
| BadJson (message : string)
| Json (content : PackageJson)
| OtherJson (value : other_json).

(** [projects]: the entries of the projects directory, [None] when it is
    absent.  [readmes]: the README of each exercise directory that has
    one. *)
Record FileSystem : Type := mkFileSystem {
  projects : option (list string);
  package_json : manifest_file;
  readmes : list (string * string)
}.

(** What the script does to the outside, in the order it does it:
    [console.log], [console.error], the calls of [fs] and [child_process],
    [process.exit], and the report of an exception nobody caught. *)
Inductive event : Type :=
| Log (line : string)
| Error (line : string)
| ExistsSync (path : string)
| ReaddirSync (path : string)
| ExecSync (command : string)
| ReadFileSync (path : string)
| WriteFileSync (path : string)
| ProcessExit (code : N)
| Uncaught (message : string).

Record State : Type := mkState {
  fs : FileSystem;
  events : list event
}.

(** How a statement completes: normally, by throwing an [Error] with a
    message, or by [process.exit]. *)
Inductive completion (A : Type) : Type :=
| Normal (a : A)
| Throw (message : string)
| Exit (code : N).

Arguments Normal {A} a.
Arguments Throw {A} message.
Arguments Exit {A} code.

Definition M (A : Type) : Type := State -> completion A * State.

Definition ret {A} (a : A) : M A := fun s => (Normal a, s).

Definition bind {A B} (m : M A) (k : A -> M B) : M B :=
  fun s =>
    match m s with
    | (Normal a, s') => k a s'
    | (Throw msg, s') => (Throw msg, s')
    | (Exit c, s') => (Exit c, s')
    end.

Notation "x <- m ;; k" := (bind m (fun x => k))
  (at level 61, m at next level, right associativity).
Notation "m ;; k" := (bind m (fun _ => k))
  (at level 61, right associativity).

Definition throw {A} (msg : string) : M A := fun s => (Throw msg, s).

(** [try { body } catch (error) { handler(error.message) }];
    [process.exit] is not an exception and passes through. *)
Definition try_catch {A} (body : M A) (handler : string -> M A) : M A :=
  fun s =>
    match body s with
    | (Throw msg, s') => handler msg s'
    | other => other
    end.

Definition emit (e : event) : M unit :=
  fun s => (Normal tt, mkState (fs s) (events s ++ [e])).

Definition get_fs : M FileSystem := fun s => (Normal (fs s), s).

Definition put_fs (f : FileSystem) : M unit :=
  fun s => (Normal tt, mkState f (events s)).

Definition console_log (line : string) : M unit := emit (Log line).
Definition console_error (line : string) : M unit := emit (Error line).

Definition process_exit {A} (code : N) : M A :=
  fun s => (Exit code, mkState (fs s) (events s ++ [ProcessExit code])).

(** The parts of a path between its separators. *)
Fixpoint path_segments (s : string) : list string :=
  match s with
  | EmptyString => [EmptyString]
  | String c s' =>
      if Ascii.eqb c "/" then EmptyString :: path_segments s'
      else match path_segments s' with
           | seg :: l => String c seg :: l
           | [] => [String c EmptyString]
           end
  end.

(** One step of [normalizeString]: the segments kept so far, the last one
    first, and the next segment.  An empty segment and [.] are dropped;
    [..] takes the last segment away, or stays when there is none to take
    and the path is relative. *)
Definition normalize_step (allowAboveRoot : bool) (kept : list string)
    (seg : string) : list string :=
  if String.eqb seg "" || String.eqb seg "." then kept
  else if String.eqb seg ".." then
    match kept with
    | [] => if allowAboveRoot then [".."] else []
    | top :: below => if String.eqb top ".." then seg :: kept else below
    end
  else seg :: kept.

Definition join_segments (l : list string) : string :=
  match l with
  | [] => EmptyString
  | seg :: l' => fold_left (fun acc s => acc ++ "/" ++ s) l' seg
  end.

Fixpoint ends_with_separator (s : string) : bool :=
  match s with
  | EmptyString => false
  | String c EmptyString => Ascii.eqb c "/"
  | String _ s' => ends_with_separator s'
  end.

(** [path.normalize] on POSIX. *)
Definition path_normalize (p : string) : string :=
  match p with
  | EmptyString => "."
  | String c _ =>
      let isAbsolute := Ascii.eqb c "/" in
      let trailingSeparator := ends_with_separator p in
      let body :=
        join_segments
          (rev (fold_left (normalize_step (negb isAbsolute))
                  (path_segments p) [])) in
      match body with
      | EmptyString =>
          if isAbsolute then "/"
          else if trailingSeparator then "./" else "."
      | _ =>
          (if isAbsolute then "/" else "")
            ++ body ++ (if trailingSeparator then "/" else "")
      end
  end.

(** [path.join(a, b)] on POSIX: the non-empty arguments with a separator
    between them, normalized. *)
Definition path_join (a b : string) : string :=
  match a, b with
  | EmptyString, _ => path_normalize b
  | _, EmptyString => path_normalize a
  | _, _ => path_normalize (a ++ "/" ++ b)
  end.

(** The own enumerable properties of an array, and of a string as
    [Object.keys] and indexing see it: the indices, each with its element
    or its unit. *)
Definition indexed (values : list string) : list (string * string) :=
  combine (map (fun i => Decimal.numeral (N.of_nat i))
             (seq 0 (List.length values)))
    values.

Fixpoint units (s : string) : list string :=
  match s with
  | EmptyString => []
  | String c s' => String c EmptyString :: units s'
  end.

(** Whether the projects directory holds the entry [dir]. *)
Definition has_dir (dir : string) (projects : option (list string)) : bool :=
  match projects with
  | Some entries => existsb (String.eqb dir) entries
  | None => false
  end.

Definition enoent (path : string) : string :=
  "ENOENT: no such file or directory, open '" ++ path ++ "'".

Definition write_readme (dir content : string)
    (l : list (string * string)) : list (string * string) :=
  (dir, content) :: filter (fun p => negb (String.eqb (fst p) dir)) l.

(** What a run of the process leaves: its events, the file system and the
    exit status. *)
Record Run : Type := mkRun {
  run_events : list event;
  run_fs : FileSystem;
  exit_status : N
}.

Section Script.

(** [__dirname]. *)
Variable dirname : string.

(** The external generator: from a command line and the file system, the
    file system it leaves and, when it fails, the message of the error
    [execSync] throws. *)
Variable generator : string -> FileSystem -> FileSystem * option string.

(** A write of [README.md] where the listing shows no directory of the
    name: the file system it leaves, or the message of the error
    [writeFileSync] throws, [ENOENT] when the directory is missing.  A
    topic with separators makes the path leave the exercise directory
    ([x/..] gives [projects/README.md]), and the write then depends on
    directories and files that the model does not hold. *)
Variable writer : string -> string -> FileSystem -> FileSystem + string.

(** [String.prototype.toUpperCase] of the host. *)
Variable toUpperCase : string -> string.

Definition projectsDir : string := path_join dirname "projects".
Definition packageJsonPath : string := path_join dirname "package.json".

Definition existsSync_projects : M bool :=
  emit (ExistsSync projectsDir) ;;
  f <- get_fs ;;
  ret (match projects f with Some _ => true | None => false end).

Definition readdirSync_projects : M (list string) :=
  emit (ReaddirSync projectsDir) ;;
  f <- get_fs ;;
  match projects f with
  | Some entries => ret entries
  | None => throw ("ENOENT: no such file or directory, scandir '"
                     ++ projectsDir ++ "'")
  end.

Definition execSync (command : string) : M unit :=
  emit (ExecSync command) ;;
  f <- get_fs ;;
  let (f', failure) := generator command f in
  put_fs f' ;;
  match failure with
  | Some msg => throw msg
  | None => ret tt
  end.

(** [JSON.parse(fs.readFileSync(packageJsonPath, 'utf8'))] *)
Definition read_packageJson : M (PackageJson + other_json) :=
  emit (ReadFileSync packageJsonPath) ;;
  f <- get_fs ;;
  match package_json f with
  | NoFile => throw (enoent packageJsonPath)
  | BadJson msg => throw msg
  | Json content => ret (inl content)
  | OtherJson value => ret (inr value)
  end.

(** [fs.writeFileSync(packageJsonPath, JSON.stringify(...) + '\n')] *)
Definition write_packageJson (content : PackageJson) : M unit :=
  emit (WriteFileSync packageJsonPath) ;;
  f <- get_fs ;;
  put_fs (mkFileSystem (projects f) (Json content) (readmes f)).

(** [fs.writeFileSync(path.join(exerciseDir, 'README.md'), text)].  When
    the listing shows the directory, the write gives it its README;
    otherwise the outcome is the writer's, which leaves the manifest
    alone. *)
Definition write_README (dir text : string) : M unit :=
  let path := path_join (path_join projectsDir dir) "README.md" in
  emit (WriteFileSync path) ;;
  f <- get_fs ;;
  if has_dir dir (projects f)
  then put_fs (mkFileSystem (projects f) (package_json f)
                 (write_readme dir text (readmes f)))
  else
    match writer path text f with
    | inl f' => put_fs (mkFileSystem (projects f') (package_json f) (readmes f'))
    | inr msg => throw msg
    end.

(** Lines 33-38. *)
Definition usage_error : M unit :=
  console_error "Error: Please provide an exercise name" ;;
  console_error "Usage: npm run create-exercise <exercise-name>" ;;
  console_error "Example: npm run create-exercise routing" ;;
  process_exit 1.

(** Lines 45-60. *)
Definition allocate : M number :=
  present <- existsSync_projects ;;
  if present
  then entries <- readdirSync_projects ;; ret (nextNumber (Some entries))
  else ret (nextNumber None).

(** Lines 88-104.  The script is not in strict mode: an assignment to a
    property of a number, a boolean or a string does nothing, and the sort
    step then copies what [Object.keys] finds, nothing or the units of the
    string.  An array takes the two properties as any object does. *)
Definition update_manifest (n : number) (exerciseName : string) : M unit :=
  console_log (JSString.LF ++ "Step 2: Updating package.json...") ;;
  packageJson <- read_packageJson ;;
  match packageJson with
  | inl content =>
      match scripts content with
      | None =>
          throw ("Cannot set properties of undefined (setting '"
                   ++ start_key n ++ "')")
      | Some members =>
          let sorted :=
            update_scripts n exerciseName (JSObject.JSON_parse members) in
          write_packageJson
            (mkPackageJson (Some (JSObject.JSON_stringify sorted))
               (other_members content))
      end
  | inr (OddScripts ScriptsNull _) =>
      throw ("Cannot set properties of null (setting '"
               ++ start_key n ++ "')")
  | inr (OddScripts ScriptsAtom others) =>
      let sorted := sortedScripts JSObject.empty in
      write_packageJson
        (mkPackageJson (Some (JSObject.JSON_stringify sorted)) others)
  | inr (OddScripts (ScriptsString text) others) =>
      let sorted := sortedScripts (JSObject.JSON_parse (indexed (units text))) in
      write_packageJson
        (mkPackageJson (Some (JSObject.JSON_stringify sorted)) others)
  | inr (OddScripts (ScriptsArray elements) others) =>
      let sorted :=
        update_scripts n exerciseName
          (JSObject.JSON_parse (indexed elements)) in
      write_packageJson
        (mkPackageJson (Some (JSObject.JSON_stringify sorted)) others)
  | inr JsonNull => throw "Cannot read properties of null (reading 'scripts')"
  | inr JsonAtom =>
      throw ("Cannot set properties of undefined (setting '"
               ++ start_key n ++ "')")
  end.

(** Lines 151-161. *)
Definition summary (n : number) (exerciseName : string) : M unit :=
  let name := fullExerciseName n exerciseName in
  console_log (JSString.LF ++ "✅ Exercise created successfully!" ++ JSString.LF) ;;
  console_log "📋 Summary:" ;;
  console_log ("   Name: " ++ name) ;;
  console_log ("   Port: " ++ Number.to_string (port n)) ;;
  console_log ("   Start command: npm run start:" ++ shortName n) ;;
  console_log ("   Build command: npm run build:" ++ shortName n) ;;
  console_log ("   Location: projects/" ++ name) ;;
  console_log (JSString.LF ++ "🎯 Next steps:") ;;
  console_log ("   1. Edit projects/" ++ name ++ "/README.md with exercise details") ;;
  console_log ("   2. Run: npm run start:" ++ shortName n) ;;
  console_log ("   3. Start coding!" ++ JSString.LF).

(** Lines 70-167. *)
Definition create (n : number) (exerciseName : string) : M unit :=
  try_catch
    (console_log "Step 1: Generating Angular application..." ;;
     execSync (generate_command (fullExerciseName n exerciseName)) ;;
     update_manifest n exerciseName ;;
     console_log "Step 3: Creating exercise README..." ;;
     write_README (fullExerciseName n exerciseName)
       (exerciseReadme toUpperCase n exerciseName) ;;
     summary n exerciseName)
    (fun message =>
       console_error (JSString.LF ++ "❌ Error creating exercise: " ++ message) ;;
       process_exit 1).

(** Lines 62-167, for a truthy [exerciseName]. *)
Definition main (exerciseName : string) : M unit :=
  n <- allocate ;;
  console_log (JSString.LF ++ "🚀 Creating new exercise: "
                 ++ fullExerciseName n exerciseName) ;;
  console_log ("📍 Port: " ++ Number.to_string (port n) ++ JSString.LF) ;;
  create n exerciseName.

(** The whole script; [arg] is [process.argv[2]], [None] for [undefined].
    [!exerciseName] holds of [undefined] and of the empty string, the two
    falsy values an argument can be. *)
Definition script (arg : option string) : M unit :=
  match arg with
  | None => usage_error
  | Some EmptyString => usage_error
  | Some exerciseName => main exerciseName
  end.

(** A run of the process from a file system.  An exception nobody catches
    ends the process with status 1. *)
Definition run (arg : option string) (f : FileSystem) : Run :=
  match script arg (mkState f []) with
  | (Normal _, s) => mkRun (events s) (fs s) 0
  | (Exit c, s) => mkRun (events s) (fs s) c
  | (Throw msg, s) => mkRun (events s ++ [Uncaught msg]) (fs s) 1
  end.

End Script.

(** What the tool itself wrote or ran, read off the events. *)
Definition is_side_effect (e : event) : bool :=
  match e with
  | ExistsSync _ | ReaddirSync _ | ExecSync _
  | ReadFileSync _ | WriteFileSync _ => true
  | _ => false
  end.

Definition is_write (e : event) : bool :=
  match e with
  | WriteFileSync _ => true
  | _ => false
  end.

Definition stderr (es : list event) : list string :=
  flat_map (fun e => match e with Error line => [line] | _ => [] end) es.

(** ** The specification's vocabulary *)

(** The value of a decimal digit, its place among the ten digits, and of a
    string of decimal digits: each digit times the power of ten of its
    place. *)
Fixpoint place_in (c : ascii) (s : string) : option N :=
  match s with
  | EmptyString => None
  | String d s' =>
      if Ascii.eqb c d then Some 0 else option_map N.succ (place_in c s')
  end.

Definition digit_of (c : ascii) : option N := place_in c "0123456789".

Fixpoint numeric_value (s : string) : option N :=
  match s with
  | EmptyString => Some 0
  | String c s' =>
      match digit_of c, numeric_value s' with
      | Some d, Some v => Some (d * 10 ^ N.of_nat (String.length s') + v)
      | _, _ => None
      end
  end.

Definition begins_with_exercise (dir : string) : Prop :=
  exists rest, dir = "exercise-" ++ rest.

(** "entries matching [exercise-<digits>-...]": the entry is the prefix, a
    non-empty run of digits [ds] of value [v], a hyphen and anything. *)
Definition matches_pattern (dir ds : string) (v : N) : Prop :=
  ds <> EmptyString /\ numeric_value ds = Some v /\
  exists rest, dir = "exercise-" ++ ds ++ "-" ++ rest.

(** "entries that match contribute their numeric value to a candidate set,
    entries that do not match contribute the value 0"; only entries that
    begin with [exercise-] are kept. *)
Inductive contributes (dir : string) : N -> Prop :=
| contributes_number (ds : string) (v : N) :
    matches_pattern dir ds v -> contributes dir v
| contributes_zero :
    begins_with_exercise dir ->
    (forall ds v, ~ matches_pattern dir ds v) ->
    contributes dir 0.

(** Every number in a listing is below [b]. *)
Definition numbers_below (b : N) (entries : list string) : Prop :=
  forall d v, In d entries -> contributes d v -> v < b.

(** The naturals that are doubles. *)
Definition is_double (n : N) : Prop := Number.round n = n.

(** The allocation from the greatest exact value [m] of a listing. *)
Definition next_of (m : N) : N := Number.round (Number.round m + 1).

(** The pattern in the allocator's own terms. *)
Definition digits_pattern (dir ds : string) : Prop :=
  Decimal.all_digits ds = true /\ ds <> EmptyString /\
  exists rest, dir = "exercise-" ++ ds ++ "-" ++ rest.

(** The number of an entry as a natural number. *)
Definition seq_value (dir : string) : N :=
  match match_exercise dir with
  | Some ds => Decimal.value_from 0 ds
  | None => 0
  end.

(** The greatest of a list of naturals, 0 for none, and the values the
    allocator takes the maximum of. *)
Definition list_max (l : list N) : N := fold_right N.max 0 l.

Definition candidates (entries : list string) : list N :=
  map seq_value (filter (JSString.startsWith "exercise-") entries).

(** "hyphens replaced with spaces", one unit at a time. *)
Definition unhyphen (c : ascii) : ascii :=
  if Ascii.eqb c "-" then " "%char else c.

(** Ascending order of keys, and the keys that are neither array indices
    nor [__proto__]. *)
Definition key_le (a b : string) : Prop := JSString.leb a b = true.

Definition plain_key (k : string) : Prop :=
  JSObject.is_array_index k = false /\ k <> "__proto__".

(** The entry of [scripts] that the copy loop of line 99 takes for a key. *)
Definition own_entry (scripts : JSObject.t) (key : string) : JSObject.t :=
  match JSObject.get key scripts with
  | Some v => [(key, v)]
  | None => []
  end.

(** The order [Object.keys] keeps: whatever stands before an array index is
    a smaller array index. *)
Definition index_ordered (o : JSObject.t) : Prop :=
  forall l1 k l2, JSObject.keys o = (l1 ++ k :: l2)%list ->
    JSObject.is_array_index k = true ->
    forall k', In k' l1 ->
      JSObject.is_array_index k' = true /\
      JSObject.index_value k' < JSObject.index_value k.

(** The events of the allocator (lines 48-49). *)
Definition allocation_events (dirname : string) (f : FileSystem) : list event :=
  match projects f with
  | Some _ => [ExistsSync (projectsDir dirname); ReaddirSync (projectsDir dirname)]
  | None => [ExistsSync (projectsDir dirname)]
  end.

Definition usage_lines : list string :=
  [ "Error: Please provide an exercise name";
    "Usage: npm run create-exercise <exercise-name>";
    "Example: npm run create-exercise routing" ].

(** Two generators to run the script on: one that fails and leaves the file
    system alone, one that creates the directory [dir]. *)
Definition failing_generator (msg : string) :
    string -> FileSystem -> FileSystem * option string :=
  fun _ f => (f, Some msg).

Definition creating_generator (dir : string) :
    string -> FileSystem -> FileSystem * option string :=
  fun _ f =>
    (mkFileSystem
       (Some (match projects f with Some l => l ++ [dir] | None => [dir] end)%list)
       (package_json f) (readmes f),
     None).

(** A writer that finds no directory, and an upper-casing to run the
    examples with: the letters a to z go to A to Z, as the host has it;
    every other unit is left alone, which the host does only below
    U+0080. *)
Definition no_directory : string -> string -> FileSystem -> FileSystem + string :=
  fun path _ _ => inr (enoent path).

Definition upper_unit (c : ascii) : ascii :=
  let n := N_of_ascii c in
  if (97 <=? n) && (n <=? 122) then ascii_of_N (n - 32) else c.

Fixpoint sample_toUpperCase (s : string) : string :=
  match s with
  | EmptyString => EmptyString
  | String c s' => String (upper_unit c) (sample_toUpperCase s')
  end.

Definition sample_fs : FileSystem :=
  mkFileSystem
    (Some ["exercise-01-basics"; "exercise-02-components"; "exercise-03-data-binding";
           "exercise-04-directives"; "exercise-05-services"])
    (Json (mkPackageJson (Some [("start:ex01", "ng serve exercise-01-basics --port 4201");
                                ("zzz", "echo z")])
             [("name", "angular-learning")]))
    [].

(** A manifest whose scripts already ascend, one of them named
    [__proto__], in a repository without a projects directory. *)
Definition proto_scripts : list (string * string) :=
  [ ("__proto__", "echo proto");
    ("build:ex01", "ng build exercise-01-basics");
    ("start:ex01", "ng serve exercise-01-basics --port 4201") ].

Definition proto_fs : FileSystem :=
  mkFileSystem None (Json (mkPackageJson (Some proto_scripts) [])) [].

(** ** Vocabulary for whole runs *)

(** The path of the README of an exercise directory (lines 144-145). *)
Definition readme_path (dirname dir : string) : string :=
  path_join (path_join (projectsDir dirname) dir) "README.md".

(** The line the handler of line 165 prints for an error message. *)
Definition failure_line (message : string) : string :=
  JSString.LF ++ "❌ Error creating exercise: " ++ message.

(** The message of the error that lines 89-93 throw on a manifest, if
    any: the file is missing, its text is not JSON, or it has no
    [scripts] to assign to. *)
Definition manifest_failure (dirname : string) (n : number)
    (m : manifest_file) : option string :=
  match m with
  | NoFile => Some (enoent (packageJsonPath dirname))
  | BadJson msg => Some msg
  | Json content =>
      match scripts content with
      | None => Some ("Cannot set properties of undefined (setting '"
                        ++ start_key n ++ "')")
      | Some _ => None
      end
  | OtherJson (OddScripts ScriptsNull _) =>
      Some ("Cannot set properties of null (setting '" ++ start_key n ++ "')")
  | OtherJson (OddScripts _ _) => None
  | OtherJson JsonNull =>
      Some "Cannot read properties of null (reading 'scripts')"
  | OtherJson JsonAtom =>
      Some ("Cannot set properties of undefined (setting '"
              ++ start_key n ++ "')")
  end.

(** The manifest that line 104 writes, if it is reached. *)
Definition written_manifest (n : number) (exerciseName : string)
    (m : manifest_file) : option PackageJson :=
  match m with
  | Json content =>
      match scripts content with
      | Some members =>
          Some (mkPackageJson
                  (Some (JSObject.JSON_stringify
                           (update_scripts n exerciseName
                              (JSObject.JSON_parse members))))
                  (other_members content))
      | None => None
      end
  | OtherJson (OddScripts ScriptsAtom others) =>
      Some (mkPackageJson
              (Some (JSObject.JSON_stringify (sortedScripts JSObject.empty)))
              others)
  | OtherJson (OddScripts (ScriptsString text) others) =>
      Some (mkPackageJson
              (Some (JSObject.JSON_stringify
                       (sortedScripts
                          (JSObject.JSON_parse (indexed (units text))))))
              others)
  | OtherJson (OddScripts (ScriptsArray elements) others) =>
      Some (mkPackageJson
              (Some (JSObject.JSON_stringify
                       (update_scripts n exerciseName
                          (JSObject.JSON_parse (indexed elements)))))
              others)
  | _ => None
  end.

(** Whether the [scripts] of a manifest is a number, a boolean or a string,
    which take no property. *)
Definition primitive_scripts (m : manifest_file) : bool :=
  match m with
  | OtherJson (OddScripts ScriptsAtom _)
  | OtherJson (OddScripts (ScriptsString _) _) => true
  | _ => false
  end.

(** The README recorded for an exercise directory. *)
Fixpoint readme_of (dir : string) (l : list (string * string)) : option string :=
  match l with
  | [] => None
  | (d, text) :: l' => if String.eqb d dir then Some text else readme_of dir l'
  end.

(** The calls a complete run makes to the outside, in order. *)
Definition all_side_effects (dirname : string) (f : FileSystem)
    (exerciseName : string) : list event :=
  (allocation_events dirname f ++
   [ ExecSync (generate_command
                 (fullExerciseName (nextNumber (projects f)) exerciseName));
     ReadFileSync (packageJsonPath dirname);
     WriteFileSync (packageJsonPath dirname);
     WriteFileSync
       (readme_path dirname
          (fullExerciseName (nextNumber (projects f)) exerciseName)) ])%list.

(** The file system a complete run leaves when the generator left the
    directory: the entries as the generator left them, the manifest as
    written, the README of the directory. *)
Definition completed_fs (toUpperCase : string -> string) (n : number)
    (exerciseName : string) (f' : FileSystem) (content : PackageJson)
    : FileSystem :=
  mkFileSystem (projects f') (Json content)
    (write_readme (fullExerciseName n exerciseName)
       (exerciseReadme toUpperCase n exerciseName) (readmes f')).

(** The run that a completion of the script stands for. *)
Definition finish (r : completion unit * State) : Run :=
  match r with
  | (Normal _, s) => mkRun (events s) (fs s) 0
  | (Exit c, s) => mkRun (events s) (fs s) c
  | (Throw msg, s) => mkRun (events s ++ [Uncaught msg]) (fs s) 1
  end.

(** A key that is not an array index. *)
Definition named_key (k : string) : bool := negb (JSObject.is_array_index k).

(** * Properties *)

(** ** Strings *)

Lemma startsWith_app (p s : string) : JSString.startsWith p (p ++ s) = true.
Proof.
  induction p as [|a p IH]; simpl; [reflexivity|].
  now rewrite Ascii.eqb_refl.
Qed.

Lemma startsWith_split (p s : string) :
  JSString.startsWith p s = true ->
  s = p ++ JSString.slice (String.length p) s.
Proof.
  revert s; induction p as [|a p IH]; intros s H; simpl in *; [reflexivity|].
  destruct s as [|b s]; [discriminate|].
  destruct (Ascii.eqb a b) eqn:E; [|discriminate].
  apply Ascii.eqb_eq in E; subst b.
  now rewrite <- (IH s H).
Qed.

Lemma slice_app (p s : string) : JSString.slice (String.length p) (p ++ s) = s.
Proof. induction p as [|a p IH]; simpl; auto. Qed.

Lemma append_assoc (a b c : string) : (a ++ b) ++ c = a ++ (b ++ c).
Proof. induction a as [|x a IH]; simpl; [reflexivity|now rewrite IH]. Qed.

Lemma append_nil_r (a : string) : a ++ "" = a.
Proof. induction a as [|x a IH]; simpl; [reflexivity|now rewrite IH]. Qed.

Lemma length_append (a b : string) :
  String.length (a ++ b) = (String.length a + String.length b)%nat.
Proof. induction a as [|x a IH]; simpl; [reflexivity|now rewrite IH]. Qed.

(** ** Decimal numerals *)

Lemma span_digits_split (s ds rest : string) :
  Decimal.span_digits s = (ds, rest) ->
  s = ds ++ rest /\ Decimal.all_digits ds = true.
Proof.
  revert ds rest; induction s as [|c s IH]; intros ds rest H; simpl in H.
  - inversion H; subst; auto.
  - destruct (Decimal.is_digit c) eqn:D.
    + destruct (Decimal.span_digits s) as [ds' rest'] eqn:E.
      inversion H; subst; clear H.
      destruct (IH ds' rest eq_refl) as [-> A].
      simpl; rewrite D, A; auto.
    + inversion H; subst; auto.
Qed.

Lemma span_digits_app (ds rest : string) :
  Decimal.all_digits ds = true ->
  (forall c r, rest = String c r -> Decimal.is_digit c = false) ->
  Decimal.span_digits (ds ++ rest) = (ds, rest).
Proof.
  intros A R; induction ds as [|c ds IH]; simpl in *.
  - destruct rest as [|c r]; [reflexivity|].
    simpl; now rewrite (R c r eq_refl).
  - apply andb_true_iff in A as [D A].
    now rewrite D, (IH A).
Qed.

Lemma span_digits_all (ds : string) :
  Decimal.all_digits ds = true -> Decimal.span_digits ds = (ds, "").
Proof.
  intros A. rewrite <- (append_nil_r ds) at 1.
  apply span_digits_app; [assumption|discriminate].
Qed.

Lemma value_from_app (a : N) (s1 s2 : string) :
  Decimal.value_from a (s1 ++ s2)
  = Decimal.value_from (Decimal.value_from a s1) s2.
Proof. revert a; induction s1 as [|c s1 IH]; intros a; simpl; auto. Qed.

Lemma all_digits_app (s1 s2 : string) :
  Decimal.all_digits (s1 ++ s2)
  = Decimal.all_digits s1 && Decimal.all_digits s2.
Proof.
  induction s1 as [|c s1 IH]; simpl; [reflexivity|].
  now rewrite IH, andb_assoc.
Qed.

Lemma digit_char_code (d : N) :
  d < 10 -> N_of_ascii (Decimal.digit_char d) = 48 + d.
Proof.
  intros H; unfold Decimal.digit_char.
  apply N_ascii_embedding; lia.
Qed.

Lemma digit_char_is_digit (d : N) :
  d < 10 -> Decimal.is_digit (Decimal.digit_char d) = true.
Proof.
  intros H; unfold Decimal.is_digit.
  rewrite (digit_char_code d H).
  apply andb_true_iff; split; apply N.leb_le; lia.
Qed.

Lemma digit_char_value (d : N) :
  d < 10 -> Decimal.digit_value (Decimal.digit_char d) = d.
Proof.
  intros H; unfold Decimal.digit_value.
  rewrite (digit_char_code d H); lia.
Qed.

Lemma digit_char_zero (d : N) :
  d < 10 -> Decimal.digit_char d = "0"%char -> d = 0.
Proof.
  intros H E. apply (f_equal N_of_ascii) in E.
  rewrite (digit_char_code d H) in E.
  change (N_of_ascii "0"%char) with 48 in E. lia.
Qed.

Ltac dec_simpl :=
  cbn [Decimal.digits_from Decimal.all_digits Decimal.value_from
       String.length String.append JSString.startsWith andb].

Ltac dec_simpl_in H :=
  cbn [Decimal.digits_from Decimal.all_digits Decimal.value_from
       String.length String.append JSString.startsWith andb] in H.

(** What [digits_from] puts in front of the accumulator, with enough fuel:
    a non-empty digit string [ds] of value [n], of one digit exactly when
    [n < 10], and with no leading zero unless [n = 0]. *)
Lemma digits_from_spec (fuel : nat) :
  forall (n : N) (acc : string),
    n < 2 ^ N.of_nat (S fuel) ->
    exists ds,
      Decimal.digits_from (S fuel) n acc = ds ++ acc /\
      Decimal.all_digits ds = true /\
      (forall a, Decimal.value_from a ds
                 = a * 10 ^ N.of_nat (String.length ds) + n) /\
      (n < 10 -> String.length ds = 1%nat) /\
      (10 <= n -> (2 <= String.length ds)%nat) /\
      (JSString.startsWith "0" ds = true -> n = 0).
Proof.
  assert (forall n acc, n < 10 ->
            exists ds,
              String (Decimal.digit_char (n mod 10)) acc = ds ++ acc /\
              Decimal.all_digits ds = true /\
              (forall a, Decimal.value_from a ds
                         = a * 10 ^ N.of_nat (String.length ds) + n) /\
              (n < 10 -> String.length ds = 1%nat) /\
              (10 <= n -> (2 <= String.length ds)%nat) /\
              (JSString.startsWith "0" ds = true -> n = 0)) as One.
  { intros n acc L.
    exists (String (Decimal.digit_char (n mod 10)) "").
    rewrite (N.mod_small n 10 L). dec_simpl. repeat split.
    - now rewrite (digit_char_is_digit n L).
    - intros a. rewrite (digit_char_value n L).
      change (10 ^ N.of_nat 1) with 10. lia.
    - intros; lia.
    - destruct (Ascii.eqb "0" (Decimal.digit_char n)) eqn:E; [|discriminate].
      intros _. apply Ascii.eqb_eq in E. symmetry in E.
      now apply digit_char_zero. }
  induction fuel as [|fuel IH]; intros n acc Hn.
  - assert (n < 10) as L by (change (2 ^ N.of_nat 1) with 2 in Hn; lia).
    cbn [Decimal.digits_from]. apply N.ltb_lt in L as L'. rewrite L'.
    now apply One.
  - change (Decimal.digits_from (S (S fuel)) n acc)
      with (if n <? 10 then String (Decimal.digit_char (n mod 10)) acc
            else Decimal.digits_from (S fuel) (n / 10)
                   (String (Decimal.digit_char (n mod 10)) acc)).
    assert (n mod 10 < 10) as Hm by (apply N.mod_lt; lia).
    destruct (n <? 10) eqn:L.
    + apply N.ltb_lt in L. now apply One.
    + apply N.ltb_ge in L.
      assert (n = 10 * (n / 10) + n mod 10) as Hdiv
        by (apply N.div_mod; lia).
      assert (n / 10 < 2 ^ N.of_nat (S fuel)) as Hq.
      { rewrite (Nat2N.inj_succ (S fuel)), N.pow_succ_r' in Hn.
        apply N.Div0.div_lt_upper_bound. lia. }
      assert (1 <= n / 10) as Hq1.
      { destruct (N.eq_dec (n / 10) 0) as [Z|Z]; [|lia].
        rewrite Z in Hdiv. lia. }
      destruct (IH (n / 10) (String (Decimal.digit_char (n mod 10)) acc) Hq)
        as (ds & E & A & V & _ & _ & Z).
      assert (ds <> "") as NE.
      { intros ->. specialize (V 0). dec_simpl_in V.
        change (10 ^ N.of_nat 0) with 1 in V. lia. }
      exists (ds ++ String (Decimal.digit_char (n mod 10)) "").
      rewrite E, append_assoc. dec_simpl. repeat split.
      * rewrite all_digits_app, A. dec_simpl.
        now rewrite (digit_char_is_digit _ Hm).
      * intros a. rewrite value_from_app, V. dec_simpl.
        rewrite (digit_char_value _ Hm), length_append. dec_simpl.
        rewrite Nat.add_1_r, Nat2N.inj_succ, N.pow_succ_r'. lia.
      * intros; lia.
      * intros _. rewrite length_append.
        destruct ds; [congruence|dec_simpl; lia].
      * intros S0. destruct ds as [|c ds]; [congruence|].
        dec_simpl_in S0. specialize (Z S0). lia.
Qed.

Lemma numeral_spec (n : N) :
  Decimal.all_digits (Decimal.numeral n) = true /\
  Decimal.value_from 0 (Decimal.numeral n) = n /\
  (n < 10 -> String.length (Decimal.numeral n) = 1%nat) /\
  (10 <= n -> (2 <= String.length (Decimal.numeral n))%nat) /\
  (JSString.startsWith "0" (Decimal.numeral n) = true -> n = 0).
Proof.
  assert (n < 2 ^ N.of_nat (S (N.to_nat (N.log2 n)))) as B.
  { rewrite Nat2N.inj_succ, N2Nat.id.
    destruct (N.eq_dec n 0) as [->|NZ]; [reflexivity|].
    apply N.log2_spec; lia. }
  destruct (digits_from_spec _ n "" B) as (ds & E & A & V & L1 & L2 & Z).
  unfold Decimal.numeral. rewrite E, append_nil_r.
  repeat split; auto.
Qed.

Lemma value_from_acc (s : string) :
  forall a, Decimal.value_from a s
            = a * 10 ^ N.of_nat (String.length s) + Decimal.value_from 0 s.
Proof.
  induction s as [|c s IH]; intros a; dec_simpl.
  - change (10 ^ N.of_nat 0) with 1. lia.
  - rewrite (IH (10 * a + Decimal.digit_value c)),
      (IH (10 * 0 + Decimal.digit_value c)).
    rewrite Nat2N.inj_succ, N.pow_succ_r'. lia.
Qed.

Lemma is_digit_value (c : ascii) :
  Decimal.is_digit c = true ->
  Decimal.digit_value c < 10 /\ N_of_ascii c = 48 + Decimal.digit_value c.
Proof.
  unfold Decimal.is_digit, Decimal.digit_value. intros H.
  apply andb_true_iff in H as [L U].
  apply N.leb_le in L. apply N.leb_le in U. lia.
Qed.

Lemma value_bound (s : string) :
  Decimal.all_digits s = true ->
  Decimal.value_from 0 s < 10 ^ N.of_nat (String.length s).
Proof.
  induction s as [|c s IH]; intros A; dec_simpl.
  - change (10 ^ N.of_nat 0) with 1. lia.
  - dec_simpl_in A. apply andb_true_iff in A as [D A].
    destruct (is_digit_value c D) as [B _]. specialize (IH A).
    rewrite value_from_acc, Nat2N.inj_succ, N.pow_succ_r'.
    nia.
Qed.

Lemma digit_value_inj (c c' : ascii) :
  Decimal.is_digit c = true -> Decimal.is_digit c' = true ->
  Decimal.digit_value c = Decimal.digit_value c' -> c = c'.
Proof.
  intros D D' E.
  destruct (is_digit_value c D) as [_ V], (is_digit_value c' D') as [_ V'].
  rewrite <- (ascii_N_embedding c), <- (ascii_N_embedding c').
  congruence.
Qed.

(** ** The specification's reading of digits *)

Lemma digit_of_spec (c : ascii) (d : N) :
  digit_of c = Some d <->
  Decimal.is_digit c = true /\ Decimal.digit_value c = d.
Proof.
  destruct c as [[] [] [] [] [] [] [] []]; vm_compute;
    first [ split; [intros [= <-]; split; reflexivity
                   |intros [_ <-]; reflexivity]
          | split; [discriminate|intros [? _]; discriminate] ].
Qed.

Lemma numeric_value_spec (ds : string) :
  forall v, numeric_value ds = Some v <->
            Decimal.all_digits ds = true /\ Decimal.value_from 0 ds = v.
Proof.
  induction ds as [|c ds IH]; intros v.
  - cbn. split; [intros [= <-]; auto|intros [_ <-]; reflexivity].
  - cbn [numeric_value]. dec_simpl.
    rewrite value_from_acc, andb_true_iff.
    replace (10 * 0 + Decimal.digit_value c) with (Decimal.digit_value c)
      by lia.
    destruct (digit_of c) as [d|] eqn:D.
    + apply digit_of_spec in D as [D <-].
      destruct (numeric_value ds) as [w|] eqn:W.
      * destruct (proj1 (IH w) eq_refl) as [A <-].
        split; [intros [= <-]; auto|intros [_ <-]; reflexivity].
      * split; [discriminate|]. intros [[_ A] _].
        assert (None = Some (Decimal.value_from 0 ds)) as X
          by (apply IH; auto).
        discriminate.
    + split; [discriminate|]. intros [[A _] _].
      assert (digit_of c = Some (Decimal.digit_value c)) as X
        by (apply digit_of_spec; auto).
      congruence.
Qed.

Lemma begins_with_exercise_spec (dir : string) :
  begins_with_exercise dir <-> JSString.startsWith "exercise-" dir = true.
Proof.
  split.
  - intros (rest & ->). apply startsWith_app.
  - intros P. apply startsWith_split in P.
    exists (JSString.slice (String.length "exercise-") dir). now symmetry.
Qed.

Lemma matches_pattern_spec (dir ds : string) (v : N) :
  matches_pattern dir ds v <->
  digits_pattern dir ds /\ Decimal.value_from 0 ds = v.
Proof.
  unfold matches_pattern, digits_pattern. rewrite numeric_value_spec.
  tauto.
Qed.

(** ** Doubles *)

Lemma pow53 : 2 ^ 53 = 9007199254740992.
Proof. reflexivity. Qed.

Lemma round_small (v : N) : v < 2 ^ 53 -> Number.round v = v.
Proof.
  intros L. unfold Number.round. apply N.ltb_lt in L. now rewrite L.
Qed.

(** Above 2^53 a double keeps 53 binary digits [q] and an exponent [e]; the
    rounding takes [q] or [q + 1], the nearer one. *)
Lemma round_cases (v : N) :
  2 ^ 53 <= v ->
  exists e q r,
    1 <= e /\ N.log2 v = e + 52 /\ 2 ^ 52 <= q /\ q < 2 ^ 53 /\
    v = q * 2 ^ e + r /\ r < 2 ^ e /\
    (Number.round v = q * 2 ^ e \/ Number.round v = (q + 1) * 2 ^ e) /\
    (r = 0 -> Number.round v = q * 2 ^ e).
Proof.
  intros L.
  assert (53 <= N.log2 v) as L53.
  { rewrite <- (N.log2_pow2 53) by lia. now apply N.log2_le_mono. }
  assert (0 < v) as Pv.
  { apply N.lt_le_trans with (2 ^ 53); [reflexivity|assumption]. }
  destruct (N.log2_spec v Pv) as [Lo Hi].
  set (e := N.log2 v - 52).
  assert (N.log2 v = e + 52) as EL by (unfold e; lia).
  assert (2 ^ N.log2 v = 2 ^ 52 * 2 ^ e) as P1.
  { rewrite EL, N.pow_add_r. lia. }
  assert (2 ^ N.succ (N.log2 v) = 2 ^ 53 * 2 ^ e) as P2.
  { rewrite EL, <- N.add_succ_r, N.pow_add_r.
    change (N.succ 52) with 53. lia. }
  assert (2 ^ e <> 0) as NZ by (apply N.pow_nonzero; lia).
  exists e, (v / 2 ^ e), (v mod 2 ^ e).
  assert (v = 2 ^ e * (v / 2 ^ e) + v mod 2 ^ e) as DM
    by (apply N.div_mod; assumption).
  assert (v mod 2 ^ e < 2 ^ e) as RM by (apply N.mod_lt; assumption).
  split; [unfold e; lia|]. split; [assumption|]. split.
  { apply N.div_le_lower_bound; [assumption|]. lia. }
  split.
  { apply N.Div0.div_lt_upper_bound. lia. }
  split; [lia|]. split; [assumption|].
  unfold Number.round. fold e.
  apply N.ltb_ge in L. rewrite L. cbv zeta.
  split.
  - destruct (v mod 2 ^ e <? 2 ^ (e - 1)); [now left|].
    destruct (2 ^ (e - 1) <? v mod 2 ^ e); [now right|].
    destruct (N.even (v / 2 ^ e)); [now left|now right].
  - intros Z. rewrite Z.
    assert (0 < 2 ^ (e - 1)) as Ph.
    { apply N.neq_0_lt_0, N.pow_nonzero. lia. }
    apply N.ltb_lt in Ph. now rewrite Ph.
Qed.

Lemma pow2_ge_2 (e : N) : 1 <= e -> 2 <= 2 ^ e.
Proof.
  intros L. change 2 with (2 ^ 1) at 1. apply N.pow_le_mono_r; lia.
Qed.

Lemma round_ge (v : N) : 2 ^ 53 <= v -> 2 ^ 53 <= Number.round v.
Proof.
  intros L.
  destruct (round_cases v L) as (e & q & r & E & _ & Q & _ & _ & _ & C & _).
  assert (2 ^ 53 <= q * 2 ^ e) as B.
  { change (2 ^ 53) with (2 ^ 52 * 2). pose proof (pow2_ge_2 e E). nia. }
  destruct C as [-> | ->]; nia.
Qed.

Lemma round_small_inv (v x : N) :
  Number.round v = x -> x < 2 ^ 53 -> v = x.
Proof.
  intros E L. destruct (N.lt_ge_cases v (2 ^ 53)) as [S|S].
  - now rewrite round_small in E.
  - apply round_ge in S. lia.
Qed.

(** What the nearer one means: the result is within half a step. *)
Lemma round_near (v : N) :
  2 ^ 53 <= v ->
  exists e q r,
    1 <= e /\ N.log2 v = e + 52 /\ 2 ^ 52 <= q /\ q < 2 ^ 53 /\
    v = q * 2 ^ e + r /\ r < 2 ^ e /\
    ((Number.round v = q * 2 ^ e /\ 2 * r <= 2 ^ e) \/
     (Number.round v = (q + 1) * 2 ^ e /\ 2 ^ e <= 2 * r)).
Proof.
  intros L.
  destruct (round_cases v L) as (e & q & r & E & EL & Q & Q' & V & R & _).
  exists e, q, r. repeat (split; [assumption|]).
  assert (2 ^ e = 2 * 2 ^ (e - 1)) as H.
  { rewrite <- N.pow_succ_r'. f_equal. lia. }
  assert (2 ^ e <> 0) as NZ by (apply N.pow_nonzero; lia).
  assert (v / 2 ^ e = q) as Dq.
  { symmetry. apply (N.div_unique v (2 ^ e) q r); [assumption|]. lia. }
  assert (v mod 2 ^ e = r) as Dr.
  { symmetry. apply (N.mod_unique v (2 ^ e) q r); [assumption|]. lia. }
  unfold Number.round.
  apply N.ltb_ge in L. rewrite L. cbv zeta.
  replace (N.log2 v - 52) with e by lia. rewrite Dq, Dr.
  destruct (r <? 2 ^ (e - 1)) eqn:C1.
  { apply N.ltb_lt in C1. left. split; [reflexivity|lia]. }
  apply N.ltb_ge in C1.
  destruct (2 ^ (e - 1) <? r) eqn:C2.
  { right. split; [reflexivity|lia]. }
  apply N.ltb_ge in C2.
  destruct (N.even q); [left|right]; (split; [reflexivity|lia]).
Qed.

Lemma round_mono (v w : N) : v <= w -> Number.round v <= Number.round w.
Proof.
  intros L.
  destruct (N.lt_ge_cases v (2 ^ 53)) as [Sv|Sv].
  { rewrite (round_small v Sv).
    destruct (N.lt_ge_cases w (2 ^ 53)) as [Sw|Sw].
    - now rewrite (round_small w Sw).
    - apply round_ge in Sw. lia. }
  assert (2 ^ 53 <= w) as Sw by lia.
  destruct (round_near v Sv)
    as (e & q & r & E & EL & Q & Q' & V & R & C).
  destruct (round_near w Sw)
    as (e' & q' & r' & E' & EL' & P & P' & W & R' & C').
  assert (e <= e') as Le.
  { pose proof (N.log2_le_mono v w L). lia. }
  destruct (N.eq_dec e e') as [<-|NE].
  - assert (q <= q') as Lq.
    { destruct (N.le_gt_cases q q') as [|G]; [assumption|].
      assert (q' + 1 <= q) as G' by lia.
      assert ((q' + 1) * 2 ^ e <= q * 2 ^ e) by nia. nia. }
    destruct (N.eq_dec q q') as [<-|NQ].
    + assert (r <= r') as Lr by lia.
      destruct (N.eq_dec r r') as [<-|NR].
      { rewrite W, <- V. apply N.le_refl. }
      destruct C as [[-> C]|[-> C]], C' as [[-> C']|[-> C']]; nia.
    + assert (q + 1 <= q') as G by lia.
      assert ((q + 1) * 2 ^ e <= q' * 2 ^ e) by nia.
      destruct C as [[-> C]|[-> C]], C' as [[-> C']|[-> C']]; nia.
  - assert (N.succ e <= e') as Se by lia.
    assert (2 ^ N.succ e <= 2 ^ e') as Pw
      by (apply N.pow_le_mono_r; lia).
    rewrite N.pow_succ_r' in Pw.
    assert (Number.round v <= (q + 1) * 2 ^ e) as U
      by (destruct C as [[-> _]|[-> _]]; nia).
    assert (q' * 2 ^ e' <= Number.round w) as D
      by (destruct C' as [[-> _]|[-> _]]; nia).
    assert ((q + 1) * 2 ^ e <= 2 ^ 53 * 2 ^ e) as U' by nia.
    assert (2 ^ 52 * 2 ^ e' <= q' * 2 ^ e') as D' by nia.
    change (2 ^ 53) with (2 ^ 52 * 2) in U'. nia.
Qed.

Lemma shortest_safe (n : N) : n <= 2 ^ 53 -> Number.shortest n = n.
Proof.
  intros L. destruct (N.eq_dec n (2 ^ 53)) as [->|NE]; [now vm_compute|].
  unfold Number.shortest.
  destruct (find _ _) as [v|] eqn:F; [|reflexivity].
  apply find_some in F as [_ F]. apply N.eqb_eq in F.
  apply (round_small_inv v n F). lia.
Qed.

(** Up to 2^53 [String(n)] is the decimal numeral. *)
Lemma to_string_safe (n : N) :
  n <= 2 ^ 53 -> Number.to_string (Fin n) = Decimal.numeral n.
Proof.
  intros L. cbn [Number.to_string]. rewrite (shortest_safe n L).
  unfold Number.render.
  assert (n < 10 ^ 21) as B.
  { apply N.le_lt_trans with (2 ^ 53); [assumption|reflexivity]. }
  apply N.ltb_lt in B. now rewrite B.
Qed.

(** ** [String(n)] is injective on doubles *)

Lemma shortest_round (n : N) :
  is_double n -> Number.round (Number.shortest n) = n.
Proof.
  intros D. unfold Number.shortest.
  destruct (find _ _) as [v|] eqn:F; [|exact D].
  apply find_some in F as [_ F]. now apply N.eqb_eq in F.
Qed.

Lemma repeat_zero_length (j : nat) :
  String.length (JSString.repeat "0" j) = j.
Proof. induction j as [|j IH]; cbn; [reflexivity|now rewrite IH]. Qed.

Lemma strip_zeros_spec (s : string) :
  exists j, s = Number.strip_zeros s ++ JSString.repeat "0" j.
Proof.
  induction s as [|c s (j & IH)]; [now exists 0%nat|].
  cbn [Number.strip_zeros].
  destruct (Number.strip_zeros s) as [|a t].
  - destruct (Ascii.eqb c "0") eqn:E.
    + apply Ascii.eqb_eq in E. subst c. exists (S j).
      cbn in IH |- *. now rewrite <- IH.
    + exists j. cbn in IH |- *. now rewrite <- IH.
  - exists j. cbn [String.append] in IH |- *. now rewrite <- IH.
Qed.

Lemma numeral_inj (v w : N) : Decimal.numeral v = Decimal.numeral w -> v = w.
Proof.
  intros E.
  destruct (numeral_spec v) as (_ & <- & _).
  destruct (numeral_spec w) as (_ & <- & _). now rewrite E.
Qed.

Lemma numeral_nonempty (v : N) : Decimal.numeral v <> "".
Proof.
  destruct (numeral_spec v) as (_ & _ & L1 & L2 & _). intros E.
  rewrite E in L1, L2. cbn in L1, L2.
  destruct (N.lt_ge_cases v 10) as [L|L];
    [specialize (L1 L)|specialize (L2 L)]; lia.
Qed.

(** The shape of the text from 10^21 on. *)
Lemma render_large (v : N) :
  10 ^ 21 <= v ->
  exists c t j,
    Decimal.numeral v = String c t ++ JSString.repeat "0" j /\
    Decimal.all_digits t = true /\ c <> "0"%char /\
    Number.render v
    = String c (match t with
                | EmptyString => EmptyString
                | _ => "." ++ t
                end ++ "e+" ++ Decimal.numeral (N.of_nat (String.length t + j))).
Proof.
  intros L. unfold Number.render.
  apply N.ltb_ge in L as L'. rewrite L'. cbv zeta.
  destruct (numeral_spec v) as (A & _ & _ & _ & Z).
  destruct (strip_zeros_spec (Decimal.numeral v)) as (j & E).
  assert (0 < v) as P.
  { apply N.lt_le_trans with (10 ^ 21); [reflexivity|assumption]. }
  destruct (Number.strip_zeros (Decimal.numeral v)) as [|c t].
  { exfalso. destruct j as [|j].
    - now apply (numeral_nonempty v).
    - rewrite E in Z. cbn in Z. specialize (Z eq_refl). lia. }
  exists c, t, j.
  assert (String.length (Decimal.numeral v) - 1 = String.length t + j)%nat
    as Len.
  { rewrite E at 1. cbn [String.append String.length].
    rewrite length_append, repeat_zero_length. lia. }
  rewrite Len. split; [exact E|]. split; [|split].
  - rewrite E in A. cbn [String.append] in A. dec_simpl_in A.
    rewrite all_digits_app in A.
    apply andb_true_iff in A as [_ A]. now apply andb_true_iff in A as [A _].
  - intros ->. rewrite E in Z. cbn in Z. specialize (Z eq_refl). lia.
  - destruct t as [|a t]; reflexivity.
Qed.

Lemma digits_then_e (a b x y : string) :
  Decimal.all_digits a = true -> Decimal.all_digits b = true ->
  a ++ String "e" x = b ++ String "e" y -> a = b /\ x = y.
Proof.
  revert b. induction a as [|c a IH]; intros [|d b] A B E;
    cbn [String.append] in E; dec_simpl_in A; dec_simpl_in B.
  - injection E as E. auto.
  - injection E as <- _. apply andb_true_iff in B as [B _]. discriminate.
  - injection E as -> _. apply andb_true_iff in A as [A _]. discriminate.
  - injection E as -> E.
    apply andb_true_iff in A as [_ A]. apply andb_true_iff in B as [_ B].
    destruct (IH b A B E) as [-> ->]. auto.
Qed.

Lemma render_large_not_digits (v : N) :
  10 ^ 21 <= v -> Decimal.all_digits (Number.render v) = false.
Proof.
  intros L. destruct (render_large v L) as (c & t & j & _ & _ & _ & ->).
  destruct t as [|a t]; cbn [String.append]; dec_simpl;
    apply andb_false_iff; right; reflexivity.
Qed.

Lemma render_inj (v w : N) : Number.render v = Number.render w -> v = w.
Proof.
  intros E.
  destruct (N.lt_ge_cases v (10 ^ 21)) as [Sv|Sv],
           (N.lt_ge_cases w (10 ^ 21)) as [Sw|Sw].
  - unfold Number.render in E.
    apply N.ltb_lt in Sv, Sw. rewrite Sv, Sw in E. now apply numeral_inj.
  - pose proof (render_large_not_digits w Sw) as F. rewrite <- E in F.
    unfold Number.render in F. apply N.ltb_lt in Sv. rewrite Sv in F.
    destruct (numeral_spec v) as (A & _). congruence.
  - pose proof (render_large_not_digits v Sv) as F. rewrite E in F.
    unfold Number.render in F. apply N.ltb_lt in Sw. rewrite Sw in F.
    destruct (numeral_spec w) as (A & _). congruence.
  - destruct (render_large v Sv) as (c & t & j & Nv & Av & _ & Rv).
    destruct (render_large w Sw) as (c' & t' & j' & Nw & Aw & _ & Rw).
    rewrite Rv, Rw in E. injection E as <- E.
    assert (t = t' /\ (String.length t + j = String.length t' + j')%nat)
      as [<- Len].
    { destruct t as [|a t], t' as [|a' t']; cbn [String.append] in E.
      - injection E as E. apply numeral_inj in E. split; [reflexivity|lia].
      - discriminate.
      - discriminate.
      - injection E as <- E.
        dec_simpl_in Av. dec_simpl_in Aw.
        apply andb_true_iff in Av as [_ Av].
        apply andb_true_iff in Aw as [_ Aw].
        apply (digits_then_e t t' (String "+" _) (String "+" _) Av Aw)
          in E as [<- E].
        injection E as E. apply numeral_inj in E.
        split; [reflexivity|lia]. }
    assert (j = j') as <- by lia.
    apply numeral_inj. now rewrite Nv, Nw.
Qed.

Lemma render_head (v : N) :
  JSString.startsWith "0" (Number.render v) = true -> v = 0.
Proof.
  destruct (N.lt_ge_cases v (10 ^ 21)) as [S|S].
  - unfold Number.render. apply N.ltb_lt in S. rewrite S.
    now destruct (numeral_spec v) as (_ & _ & _ & _ & Z).
  - destruct (render_large v S) as (c & t & j & _ & _ & C & ->).
    cbn [JSString.startsWith].
    destruct (Ascii.eqb "0" c) eqn:E; [|discriminate].
    apply Ascii.eqb_eq in E. congruence.
Qed.

Lemma render_nonempty (v : N) : Number.render v <> "".
Proof.
  destruct (N.lt_ge_cases v (10 ^ 21)) as [S|S].
  - unfold Number.render. apply N.ltb_lt in S. rewrite S.
    apply numeral_nonempty.
  - destruct (render_large v S) as (c & t & j & _ & _ & _ & ->).
    discriminate.
Qed.

Lemma to_string_inj (n m : N) :
  is_double n -> is_double m ->
  Number.to_string (Fin n) = Number.to_string (Fin m) -> n = m.
Proof.
  intros Dn Dm E. cbn [Number.to_string] in E. apply render_inj in E.
  rewrite <- (shortest_round n Dn), <- (shortest_round m Dm). now rewrite E.
Qed.

(** Padding keeps the texts of different doubles apart: a text of two units
    or more does not begin with a zero. *)
Lemma paddedNumber_inj (n m : N) :
  is_double n -> is_double m ->
  paddedNumber (Fin n) = paddedNumber (Fin m) -> n = m.
Proof.
  intros Dn Dm E. apply (to_string_inj n m Dn Dm).
  unfold paddedNumber in E. cbn [Number.to_string] in *.
  pose proof (render_nonempty (Number.shortest n)) as Nn.
  pose proof (render_nonempty (Number.shortest m)) as Nm.
  pose proof (render_head (Number.shortest n)) as Hn.
  pose proof (render_head (Number.shortest m)) as Hm.
  destruct (Number.render (Number.shortest n)) as [|a [|a' s]] eqn:En;
    [congruence| |];
    (destruct (Number.render (Number.shortest m)) as [|b [|b' s']] eqn:Em;
     [congruence| |]); cbn in E.
  - now injection E as <-.
  - injection E as <- _. cbn in Hm. specialize (Hm eq_refl).
    rewrite Hm in Em. vm_compute in Em. discriminate.
  - injection E as -> _. cbn in Hn. specialize (Hn eq_refl).
    rewrite Hn in En. vm_compute in En. discriminate.
  - exact E.
Qed.

Lemma next_of_safe (m : N) : m < 2 ^ 53 -> next_of m = m + 1.
Proof.
  intros L. unfold next_of. rewrite (round_small m L).
  destruct (N.eq_dec (m + 1) (2 ^ 53)) as [E|NE].
  - rewrite E. now vm_compute.
  - apply round_small. lia.
Qed.

Lemma next_of_mono (a b : N) : a <= b -> next_of a <= next_of b.
Proof.
  intros L. unfold next_of. apply round_mono.
  pose proof (round_mono a b L). lia.
Qed.

Lemma paddedNumber_small (n : N) :
  n < 10 -> paddedNumber (Fin n) = "0" ++ Decimal.numeral n.
Proof.
  intros L. destruct (numeral_spec n) as (_ & _ & L1 & _).
  unfold paddedNumber, JSString.padStart.
  rewrite to_string_safe by (rewrite pow53; lia).
  now rewrite (L1 L).
Qed.

Lemma paddedNumber_large (n : N) :
  10 <= n -> n <= 2 ^ 53 -> paddedNumber (Fin n) = Decimal.numeral n.
Proof.
  intros L B. destruct (numeral_spec n) as (_ & _ & _ & L2 & _).
  unfold paddedNumber, JSString.padStart.
  rewrite (to_string_safe n B).
  specialize (L2 L). apply Nat.leb_le in L2. now rewrite L2.
Qed.

(** Up to 2^53 the padded number is a non-empty digit string whose value is
    the number: the pattern of the allocator reads it back. *)
Lemma paddedNumber_digits (n : N) :
  n <= 2 ^ 53 ->
  Decimal.all_digits (paddedNumber (Fin n)) = true /\
  Decimal.value_from 0 (paddedNumber (Fin n)) = n /\
  (2 <= String.length (paddedNumber (Fin n)))%nat.
Proof.
  intros B.
  destruct (numeral_spec n) as (A & V & L1 & L2 & _).
  destruct (N.lt_ge_cases n 10) as [L|L].
  - rewrite (paddedNumber_small n L). dec_simpl.
    rewrite A, (L1 L). repeat split; auto.
  - rewrite (paddedNumber_large n L B). auto.
Qed.

(** ** C7 and C8: the padded number and the port *)

(** C7, as the code has it.  For a sequence number [n] below 2^53 the
    padded string is the decimal numeral of [n] (digits only, of value [n],
    each digit counting for its power of ten, without a leading zero unless
    [n] is 0) with zeros in front up to a width of 2 and nothing cut off;
    1 gives "01", 10 gives "10" and 100 gives "100". *)
Theorem paddedNumber_spec (n : N) :
  n < 2 ^ 53 ->
  paddedNumber (Fin n)
  = JSString.repeat "0" (2 - String.length (Number.to_string (Fin n)))
      ++ Number.to_string (Fin n) /\
  (2 <= String.length (paddedNumber (Fin n)))%nat /\
  Decimal.all_digits (Number.to_string (Fin n)) = true /\
  Decimal.value_from 0 (Number.to_string (Fin n)) = n /\
  numeric_value (Number.to_string (Fin n)) = Some n /\
  (JSString.startsWith "0" (Number.to_string (Fin n)) = true -> n = 0) /\
  paddedNumber (Fin 1) = "01" /\
  paddedNumber (Fin 10) = "10" /\
  paddedNumber (Fin 100) = "100".
Proof.
  intros B. assert (n <= 2 ^ 53) as B' by lia.
  destruct (numeral_spec n) as (A & V & L1 & L2 & Z).
  destruct (paddedNumber_digits n B') as (_ & _ & W).
  rewrite (to_string_safe n B').
  split; [|split; [exact W|split; [exact A|split; [exact V|split;
    [now apply numeric_value_spec|split; [exact Z|]]]]]].
  - destruct (N.lt_ge_cases n 10) as [L|L].
    + rewrite (paddedNumber_small n L), (L1 L). reflexivity.
    + rewrite (paddedNumber_large n L B').
      specialize (L2 L).
      replace (2 - String.length (Decimal.numeral n))%nat with 0%nat by lia.
      reflexivity.
  - split; [|split]; vm_compute; reflexivity.
Qed.

Lemma paddedNumber_spec_witness :
  6 < 2 ^ 53 /\ paddedNumber (Fin 6) = "06" /\
  Decimal.value_from 0 (Number.to_string (Fin 6)) = 6.
Proof.
  assert (6 < 2 ^ 53) as B by reflexivity.
  split; [exact B|]. split; [reflexivity|].
  exact (proj1 (proj2 (proj2 (proj2 (paddedNumber_spec 6 B))))).
Defined.

(** C7 does not hold for every sequence number.  A directory
    [exercise-999999999999999999999-x] makes the allocator yield the double
    10^21, whose string is [1e+21]: not digits only, and of value 1 as far
    as its digits go. *)
Lemma paddedNumber_exponent :
  nextNumber (Some ["exercise-999999999999999999999-x"]) = Fin (10 ^ 21) /\
  paddedNumber (Fin (10 ^ 21)) = "1e+21" /\
  ~ (Decimal.all_digits (Number.to_string (Fin (10 ^ 21))) = true /\
     Decimal.value_from 0 (Number.to_string (Fin (10 ^ 21))) = 10 ^ 21).
Proof.
  split; [now vm_compute|]. split; [now vm_compute|].
  intros [A _]. vm_compute in A. discriminate.
Qed.

Lemma round_safe (v : N) : v <= 2 ^ 53 -> Number.round v = v.
Proof.
  intros B. destruct (N.eq_dec v (2 ^ 53)) as [E|NE].
  - rewrite E. now vm_compute.
  - apply round_small. lia.
Qed.

Lemma port_safe (n : N) :
  4200 + n <= 2 ^ 53 -> port (Fin n) = Fin (4200 + n).
Proof.
  intros B. unfold port, Number.add. f_equal. now apply round_safe.
Qed.

(** Doubles beyond 2^53 as the script reads and writes them. *)
Example double_examples :
  Number.parseInt "9007199254740993" = Fin 9007199254740992 /\
  Number.parseInt "18446744073709551616" = Fin (2 ^ 64) /\
  Number.to_string (Fin (2 ^ 64)) = "18446744073709552000" /\
  Number.to_string (Fin (2 ^ 70)) = "1.1805916207174113e+21" /\
  Number.to_string (Fin (10 ^ 23)) = "1e+23" /\
  Number.succ (Fin (2 ^ 53)) = Fin (2 ^ 53).
Proof. repeat split; vm_compute; reflexivity. Qed.

(** C8, as the code has it.  For a sequence number [n] with [4200 + n] up
    to 2^53 the port is [4200 + n]; sequence 6 gives port 4206. *)
Theorem port_spec (n : N) :
  4200 + n <= 2 ^ 53 ->
  port (Fin n) = Fin (4200 + n) /\ port (Fin 6) = Fin 4206.
Proof.
  intros B. split; [now apply port_safe|reflexivity].
Qed.

Lemma port_spec_witness :
  4200 + 6 <= 2 ^ 53 /\ port (Fin 6) = Fin (4200 + 6).
Proof.
  assert (4200 + 6 <= 2 ^ 53) as B by (vm_compute; discriminate).
  split; [exact B|]. exact (proj1 (port_spec 6 B)).
Defined.

(** C8 does not hold whatever the size of the number.  A directory
    [exercise-72057594037927936-x] (2^56) makes the allocator yield 2^56
    again, and the sum with 4200 is rounded to a multiple of 16. *)
Lemma port_rounds :
  nextNumber (Some ["exercise-72057594037927936-x"]) = Fin (2 ^ 56) /\
  port (Fin (2 ^ 56)) = Fin 72057594037932128 /\
  port (Fin (2 ^ 56)) <> Fin (4200 + 2 ^ 56).
Proof.
  split; [now vm_compute|]. split; [now vm_compute|].
  vm_compute. discriminate.
Qed.

(** ** The allocator *)

Lemma match_exercise_sound (dir ds : string) :
  match_exercise dir = Some ds -> digits_pattern dir ds.
Proof.
  unfold match_exercise, digits_pattern.
  destruct (JSString.startsWith "exercise-" dir) eqn:P; [|discriminate].
  apply startsWith_split in P.
  change (String.length "exercise-") with 9%nat in P.
  destruct (Decimal.span_digits (JSString.slice 9 dir)) as [ds' rest] eqn:E.
  apply span_digits_split in E as [E A].
  destruct ds' as [|c ds']; [discriminate|].
  destruct (JSString.startsWith "-" rest) eqn:H; [|discriminate].
  intros [= <-]. apply startsWith_split in H.
  split; [assumption|split; [discriminate|]].
  exists (JSString.slice (String.length "-") rest).
  now rewrite <- H, <- E.
Qed.

Lemma match_exercise_complete (dir ds : string) :
  digits_pattern dir ds -> match_exercise dir = Some ds.
Proof.
  intros (A & NE & rest & ->). unfold match_exercise.
  rewrite startsWith_app.
  change 9%nat with (String.length "exercise-"). rewrite slice_app.
  rewrite (span_digits_app ds ("-" ++ rest) A).
  - destruct ds; [congruence|reflexivity].
  - intros c r [= <- _]. reflexivity.
Qed.

Lemma digits_pattern_prefix (dir ds : string) :
  digits_pattern dir ds -> JSString.startsWith "exercise-" dir = true.
Proof. intros (_ & _ & rest & ->). apply startsWith_app. Qed.

Lemma parseInt_digits (ds : string) :
  Decimal.all_digits ds = true -> ds <> "" ->
  Number.parseInt ds = Fin (Number.round (Decimal.value_from 0 ds)).
Proof.
  intros A NE. unfold Number.parseInt.
  rewrite (span_digits_all ds A). cbn [fst].
  destruct ds; [congruence|reflexivity].
Qed.

(** The callback never yields [NaN]: it yields the double nearest to the
    number the entry shows. *)
Lemma entry_number_Fin (dir : string) :
  entry_number dir = Fin (Number.round (seq_value dir)).
Proof.
  unfold entry_number, seq_value.
  destruct (match_exercise dir) as [ds|] eqn:E; [|reflexivity].
  apply match_exercise_sound in E as (A & NE & _).
  now apply parseInt_digits.
Qed.

(** The executable callback agrees with the specification's wording. *)
Lemma contributes_iff (dir : string) (v : N) :
  contributes dir v <->
  JSString.startsWith "exercise-" dir = true /\ seq_value dir = v.
Proof.
  unfold seq_value; split.
  - intros [ds w Hm|P Hn].
    + apply matches_pattern_spec in Hm as [Hm <-].
      split; [now apply (digits_pattern_prefix dir ds)|].
      now rewrite (match_exercise_complete dir ds Hm).
    + split; [now apply begins_with_exercise_spec|].
      destruct (match_exercise dir) as [ds|] eqn:E; [|reflexivity].
      apply match_exercise_sound in E.
      exfalso. apply (Hn ds (Decimal.value_from 0 ds)).
      apply matches_pattern_spec. auto.
  - intros [P <-].
    destruct (match_exercise dir) as [ds|] eqn:E.
    + apply (contributes_number dir ds).
      apply matches_pattern_spec. split; [|reflexivity].
      now apply match_exercise_sound.
    + apply contributes_zero; [now apply begins_with_exercise_spec|].
      intros ds w Hm. apply matches_pattern_spec in Hm as [Hm _].
      apply match_exercise_complete in Hm. congruence.
Qed.

Lemma list_max_ge (l : list N) (x : N) : In x l -> x <= list_max l.
Proof.
  induction l as [|y l IH]; intros H; [contradiction|].
  cbn [list_max fold_right]. fold (list_max l).
  destruct H as [->|H]; [lia|]. specialize (IH H). lia.
Qed.

Lemma list_max_in (l : list N) : l <> [] -> In (list_max l) l.
Proof.
  induction l as [|y l IH]; intros H; [congruence|].
  cbn [list_max fold_right]. fold (list_max l).
  destruct (N.max_spec y (list_max l)) as [[L ->]|[L ->]]; [|now left].
  right. apply IH. intros ->. cbn in L. lia.
Qed.

Lemma list_max_lt (l : list N) (b : N) :
  0 < b -> (forall x, In x l -> x < b) -> list_max l < b.
Proof.
  intros P H. destruct l as [|y l]; [exact P|].
  apply H, list_max_in. discriminate.
Qed.

Lemma Math_max_Fin (l : list N) :
  l <> [] -> Number.Math_max (map Fin l) = Fin (list_max l).
Proof.
  induction l as [|x l IH]; intros H; [congruence|].
  cbn [map Number.Math_max fold_right list_max].
  fold (Number.Math_max (map Fin l)). fold (list_max l).
  destruct l as [|y l].
  - cbn. now rewrite N.max_0_r.
  - rewrite IH by discriminate. reflexivity.
Qed.

Lemma round_zero : Number.round 0 = 0.
Proof. reflexivity. Qed.

(** Rounding is monotone, so the greatest double is the double of the
    greatest number. *)
Lemma list_max_round (l : list N) :
  list_max (map Number.round l) = Number.round (list_max l).
Proof.
  induction l as [|x l IH]; [reflexivity|].
  cbn [map list_max fold_right].
  fold (list_max l). fold (list_max (map Number.round l)). rewrite IH.
  destruct (N.max_spec x (list_max l)) as [[L ->]|[L ->]].
  - apply N.max_r, round_mono. lia.
  - apply N.max_l, round_mono. lia.
Qed.

Lemma project_numbers_Fin (entries : list string) :
  project_numbers entries = map Fin (map Number.round (candidates entries)).
Proof.
  unfold project_numbers, candidates. rewrite !map_map.
  apply map_ext. intros d. apply entry_number_Fin.
Qed.

Lemma nextNumber_closed (entries : list string) :
  nextNumber (Some entries) = Fin (next_of (list_max (candidates entries))).
Proof.
  unfold nextNumber. rewrite project_numbers_Fin, !length_map.
  destruct (candidates entries) as [|x l] eqn:E; [reflexivity|].
  cbn [List.length Nat.ltb Nat.leb].
  rewrite Math_max_Fin by discriminate.
  rewrite list_max_round. reflexivity.
Qed.

Lemma candidates_in (entries : list string) (v : N) :
  In v (candidates entries) <->
  exists d, In d entries /\ contributes d v.
Proof.
  unfold candidates. rewrite in_map_iff. split.
  - intros (d & <- & H). apply filter_In in H as [H P].
    exists d. split; [assumption|]. now apply contributes_iff.
  - intros (d & H & C). apply contributes_iff in C as [P <-].
    exists d. split; [reflexivity|]. now apply filter_In.
Qed.

Lemma candidates_nil (entries : list string) :
  candidates entries = [] <->
  forall d, In d entries -> ~ begins_with_exercise d.
Proof.
  unfold candidates. split.
  - intros E d H B. apply map_eq_nil in E.
    apply begins_with_exercise_spec in B.
    assert (In d (filter (JSString.startsWith "exercise-") entries)) as F
      by now apply filter_In.
    rewrite E in F. contradiction.
  - intros H.
    destruct (filter (JSString.startsWith "exercise-") entries) as [|d l] eqn:E;
      [reflexivity|].
    assert (In d (filter (JSString.startsWith "exercise-") entries)) as F
      by (rewrite E; now left).
    apply filter_In in F as [F P].
    apply begins_with_exercise_spec in P. now apply H in P.
Qed.

Lemma candidates_below (b : N) (entries : list string) :
  0 < b -> numbers_below b entries -> list_max (candidates entries) < b.
Proof.
  intros P H. apply list_max_lt; [assumption|].
  intros x Hx. apply candidates_in in Hx as (d & Hd & C).
  now apply (H d x).
Qed.

(** The allocator never yields [NaN] or [-Infinity]. *)
Lemma nextNumber_Fin (dir : option (list string)) :
  exists n, nextNumber dir = Fin n.
Proof.
  destruct dir as [entries|]; [|now exists 1].
  eexists. apply nextNumber_closed.
Qed.

Lemma allocate_result (dirname : string) (s : State) :
  allocate dirname s
  = (Normal (nextNumber (projects (fs s))),
     mkState (fs s) (events s ++ allocation_events dirname (fs s))).
Proof.
  destruct s as [f es].
  unfold allocate, existsSync_projects, readdirSync_projects,
    allocation_events, bind, emit, get_fs, ret; cbn [fs events].
  destruct (projects f) as [entries|] eqn:P;
    cbn [fs events]; rewrite ?P; cbn [fs events];
    rewrite <- ?app_assoc; reflexivity.
Qed.

(** C1, as the code has it.  When every number shown by an entry is below
    2^53, the next sequence number is a natural number [n]; it is 1 when the
    projects directory is absent or holds no entry that begins with
    [exercise-]; otherwise it is one more than the greatest value
    contributed by those entries, where an entry that matches
    [exercise-<digits>-...] contributes the value of its digits and any
    other entry that begins with [exercise-] contributes 0. *)
Theorem nextNumber_spec (dir : option (list string)) :
  (forall entries, dir = Some entries -> numbers_below (2 ^ 53) entries) ->
  exists n, nextNumber dir = Fin n /\
    match dir with
    | None => n = 1
    | Some entries =>
        ((forall d, In d entries -> ~ begins_with_exercise d) /\ n = 1)
        \/
        (exists m, n = m + 1 /\
           (exists d, In d entries /\ contributes d m) /\
           (forall d v, In d entries -> contributes d v -> v <= m))
    end.
Proof.
  intros B.
  destruct dir as [entries|]; [|now exists 1].
  specialize (B entries eq_refl).
  exists (next_of (list_max (candidates entries))).
  split; [apply nextNumber_closed|].
  assert (list_max (candidates entries) < 2 ^ 53) as L
    by (apply candidates_below; [reflexivity|assumption]).
  destruct (candidates entries) as [|x l] eqn:E.
  - left. split; [now apply candidates_nil|reflexivity].
  - right. exists (list_max (x :: l)).
    split; [now apply next_of_safe|]. split.
    + apply candidates_in. rewrite E. apply list_max_in. discriminate.
    + intros d v H C. apply list_max_ge. rewrite <- E.
      apply candidates_in. eauto.
Qed.

(** The example of the specification: exercises 01, 03 and 05 give 6. *)
Example nextNumber_example :
  nextNumber (Some ["exercise-01-basics"; "exercise-03-data-binding";
                    "exercise-05-services"]) = Fin 6.
Proof. reflexivity. Qed.

(** A stray [exercise-] counts as 0 and does not break the allocation. *)
Example nextNumber_stray :
  nextNumber (Some ["exercise-"; "README.md"]) = Fin 1 /\
  nextNumber (Some ["exercise-"; "exercise-02-x"; "exercise-7"]) = Fin 3.
Proof. split; reflexivity. Qed.

Lemma sample_numbers_below :
  numbers_below (2 ^ 53) ["exercise-01-basics"; "exercise-06-routing"].
Proof.
  intros d v H C. apply contributes_iff in C as [_ <-].
  destruct H as [<-|[<-|[]]]; reflexivity.
Qed.

Lemma nextNumber_spec_witness :
  exists n,
    nextNumber (Some ["exercise-01-basics"; "exercise-06-routing"]) = Fin n /\
    (((forall d, In d ["exercise-01-basics"; "exercise-06-routing"] ->
                 ~ begins_with_exercise d) /\ n = 1)
     \/
     (exists m, n = m + 1 /\
        (exists d, In d ["exercise-01-basics"; "exercise-06-routing"] /\
                   contributes d m) /\
        (forall d v, In d ["exercise-01-basics"; "exercise-06-routing"] ->
                     contributes d v -> v <= m))).
Proof.
  apply (nextNumber_spec
           (Some ["exercise-01-basics"; "exercise-06-routing"])).
  intros entries [= <-]. exact sample_numbers_below.
Defined.

(** C1 does not hold for every listing.  The entry
    [exercise-9007199254740993-x] contributes 2^53 + 1, which no double
    is: the code reads 2^53, adds 1 and rounds to 2^53 again, where one
    more than the contribution is 2^53 + 2. *)
Lemma nextNumber_rounds :
  contributes "exercise-9007199254740993-x" 9007199254740993 /\
  nextNumber (Some ["exercise-9007199254740993-x"]) = Fin 9007199254740992 /\
  ~ (exists m,
       9007199254740992 = m + 1 /\
       (exists d, In d ["exercise-9007199254740993-x"] /\ contributes d m) /\
       (forall d v, In d ["exercise-9007199254740993-x"] ->
                    contributes d v -> v <= m)).
Proof.
  assert (contributes "exercise-9007199254740993-x" 9007199254740993) as C.
  { apply (contributes_number _ "9007199254740993").
    split; [discriminate|]. split; [reflexivity|]. now exists "x". }
  split; [exact C|]. split; [now vm_compute|].
  intros (m & E & _ & U).
  specialize (U _ _ (or_introl eq_refl) C). lia.
Qed.

Lemma fullExerciseName_contributes (n : N) (topic : string) :
  n <= 2 ^ 53 -> contributes (fullExerciseName (Fin n) topic) n.
Proof.
  intros B.
  destruct (paddedNumber_digits n B) as (A & V & L).
  apply (contributes_number _ (paddedNumber (Fin n))).
  apply matches_pattern_spec. split; [|assumption].
  split; [assumption|split].
  - intros E. rewrite E in L. cbn in L. lia.
  - exists topic. reflexivity.
Qed.

(** ** C6: the heading of the README *)

Lemma replace_hyphens_get (s : string) (i : nat) :
  String.get i (JSString.replace_hyphens s)
  = option_map unhyphen (String.get i s).
Proof.
  revert i; induction s as [|c s IH]; intros i; [reflexivity|].
  destruct i as [|i]; [reflexivity|]. apply IH.
Qed.

Lemma replace_hyphens_length (s : string) :
  String.length (JSString.replace_hyphens s) = String.length s.
Proof. induction s as [|c s IH]; simpl; congruence. Qed.

(** C6. For a topic of first unit [c] and remainder [rest], the heading is
    "Exercise <padded>: " followed by the upper-casing of [c] and by the
    remainder unit for unit, each hyphen turned into a space and every
    other unit kept as typed.  Upper-casing is the host's [toUpperCase],
    applied to the first unit alone; the statement holds whatever that
    function is.  The README begins with "# " and this heading.  With an
    upper-casing that takes "r" to "R", topic "routing" with sequence 6
    gives "Exercise 06: Routing"; with one that takes "t" to "T", topic
    "two-way-binding" with sequence 7 gives "Exercise 07: Two way
    binding". *)
Theorem heading_spec (toUpperCase : string -> string) :
  (forall n c rest, exists rest',
      heading toUpperCase n (String c rest)
      = "Exercise " ++ paddedNumber n ++ ": "
          ++ toUpperCase (String c "") ++ rest' /\
      String.length rest' = String.length rest /\
      forall i, String.get i rest' = option_map unhyphen (String.get i rest)) /\
  (forall n topic, exists body,
      exerciseReadme toUpperCase n topic
      = "# " ++ heading toUpperCase n topic ++ JSString.LF ++ body) /\
  (toUpperCase "r" = "R" ->
   heading toUpperCase (Fin 6) "routing" = "Exercise 06: Routing") /\
  (toUpperCase "t" = "T" ->
   heading toUpperCase (Fin 7) "two-way-binding"
   = "Exercise 07: Two way binding").
Proof.
  split; [|split; [|split]].
  - intros n c rest. exists (JSString.replace_hyphens rest).
    split; [reflexivity|]. split.
    + apply replace_hyphens_length.
    + intros i. apply replace_hyphens_get.
  - intros n topic. eexists. unfold exerciseReadme, unlines.
    cbn [fold_right]. rewrite !append_assoc. reflexivity.
  - intros U. unfold heading, humanize.
    cbn [JSString.charAt JSString.slice]. rewrite U. reflexivity.
  - intros U. unfold heading, humanize.
    cbn [JSString.charAt JSString.slice]. rewrite U. reflexivity.
Qed.

(** The two headings with the upper-casing of the examples. *)
Example heading_examples :
  sample_toUpperCase "r" = "R" /\ sample_toUpperCase "t" = "T" /\
  heading sample_toUpperCase (Fin 6) "routing" = "Exercise 06: Routing" /\
  heading sample_toUpperCase (Fin 7) "two-way-binding"
  = "Exercise 07: Two way binding".
Proof. repeat split. Qed.

(** ** C4, C5 and C10: how the script ends early *)

(** C5. With no topic argument the run prints the three usage lines to
    standard error and exits with status 1; these are its only events (no
    directory read, no generator call, no file read or write) and the file
    system is the one it started from. *)
Theorem missing_argument
    (dirname : string)
    (generator : string -> FileSystem -> FileSystem * option string)
    (writer : string -> string -> FileSystem -> FileSystem + string)
    (toUpperCase : string -> string)
    (f : FileSystem) :
  run dirname generator writer toUpperCase None f
  = mkRun (map Error usage_lines ++ [ProcessExit 1]) f 1 /\
  stderr (run_events (run dirname generator writer toUpperCase None f))
  = usage_lines /\
  filter is_side_effect
    (run_events (run dirname generator writer toUpperCase None f)) = [].
Proof. repeat split. Qed.

(** C10. An empty topic argument is falsy like a missing one: the run is
    the same, the usage lines on standard error, status 1, no other
    event and the file system untouched. *)
Theorem empty_argument
    (dirname : string)
    (generator : string -> FileSystem -> FileSystem * option string)
    (writer : string -> string -> FileSystem -> FileSystem + string)
    (toUpperCase : string -> string)
    (f : FileSystem) :
  run dirname generator writer toUpperCase (Some "") f
  = run dirname generator writer toUpperCase None f /\
  run dirname generator writer toUpperCase (Some "") f
  = mkRun (map Error usage_lines ++ [ProcessExit 1]) f 1 /\
  stderr (run_events (run dirname generator writer toUpperCase (Some "") f))
  = usage_lines /\
  filter is_side_effect
    (run_events (run dirname generator writer toUpperCase (Some "") f)) = [].
Proof. repeat split. Qed.

(** C4. When the generator fails with message [msg], leaving the file
    system [f'], the run ends there: after the generator call the only
    events are the message on standard error and the exit with status 1,
    no file is read or written by the script, and the file system is [f'],
    so the manifest and the READMEs are as before the run whenever the
    generator itself left them alone. *)
Theorem generator_failure
    (dirname : string)
    (generator : string -> FileSystem -> FileSystem * option string)
    (writer : string -> string -> FileSystem -> FileSystem + string)
    (toUpperCase : string -> string)
    (f f' : FileSystem) (c : ascii) (rest msg : string) :
  let exerciseName := String c rest in
  let n := nextNumber (projects f) in
  let r := run dirname generator writer toUpperCase (Some exerciseName) f in
  generator (generate_command (fullExerciseName n exerciseName)) f
  = (f', Some msg) ->
  r = mkRun
        (allocation_events dirname f ++
         [Log (JSString.LF ++ "🚀 Creating new exercise: "
                 ++ fullExerciseName n exerciseName);
          Log ("📍 Port: " ++ Number.to_string (port n) ++ JSString.LF);
          Log "Step 1: Generating Angular application...";
          ExecSync (generate_command (fullExerciseName n exerciseName));
          Error (JSString.LF ++ "❌ Error creating exercise: " ++ msg);
          ProcessExit 1])
        f' 1 /\
  exit_status r = 1 /\
  stderr (run_events r) = [JSString.LF ++ "❌ Error creating exercise: " ++ msg] /\
  filter is_write (run_events r) = [] /\
  (package_json f' = package_json f -> package_json (run_fs r) = package_json f) /\
  (readmes f' = readmes f -> readmes (run_fs r) = readmes f).
Proof.
  intros exerciseName n r H.
  assert (r = mkRun
        (allocation_events dirname f ++
         [Log (JSString.LF ++ "🚀 Creating new exercise: "
                 ++ fullExerciseName n exerciseName);
          Log ("📍 Port: " ++ Number.to_string (port n) ++ JSString.LF);
          Log "Step 1: Generating Angular application...";
          ExecSync (generate_command (fullExerciseName n exerciseName));
          Error (JSString.LF ++ "❌ Error creating exercise: " ++ msg);
          ProcessExit 1])
        f' 1) as E.
  { subst r. unfold run.
    change (script dirname generator writer toUpperCase (Some exerciseName))
      with (main dirname generator writer toUpperCase exerciseName).
    unfold main. unfold bind at 1. rewrite allocate_result.
    cbn [fs events app]. fold n.
    unfold create, try_catch, execSync, console_log, console_error,
      process_exit, bind, emit, get_fs, put_fs, throw, ret.
    cbn [fs events]. rewrite H. cbn [fs events].
    rewrite <- !app_assoc. reflexivity. }
  rewrite E. cbn [exit_status run_events run_fs].
  repeat split; auto.
  - unfold allocation_events. destruct (projects f); reflexivity.
  - unfold allocation_events. destruct (projects f); reflexivity.
Qed.

Lemma generator_failure_witness :
  failing_generator "Command failed: ng"
    (generate_command
       (fullExerciseName (nextNumber (projects sample_fs)) "routing"))
    sample_fs
  = (sample_fs, Some "Command failed: ng") /\
  exit_status
    (run "/repo" (failing_generator "Command failed: ng") no_directory
        sample_toUpperCase (Some "routing") sample_fs) = 1 /\
  filter is_write
    (run_events
       (run "/repo" (failing_generator "Command failed: ng") no_directory
           sample_toUpperCase (Some "routing") sample_fs)) = [] /\
  package_json
    (run_fs
       (run "/repo" (failing_generator "Command failed: ng") no_directory
           sample_toUpperCase (Some "routing") sample_fs)) = package_json sample_fs.
Proof.
  split; [reflexivity|].
  destruct (generator_failure "/repo" (failing_generator "Command failed: ng")
              no_directory sample_toUpperCase sample_fs sample_fs
              "r" "outing" "Command failed: ng" eq_refl)
    as (_ & S & _ & W & P & _).
  split; [exact S|]. split; [exact W|]. exact (P eq_refl).
Defined.

(** ** The order of keys and the sort *)

Lemma leb_refl (a : string) : JSString.leb a a = true.
Proof.
  induction a as [|x a IH]; [reflexivity|].
  cbn [JSString.leb]. cbv zeta. now rewrite N.ltb_irrefl.
Qed.

Lemma leb_total (a b : string) :
  JSString.leb a b = false -> JSString.leb b a = true.
Proof.
  revert b; induction a as [|x a IH]; intros [|y b]; try easy.
  cbn [JSString.leb]. cbv zeta.
  destruct (N_of_ascii x <? N_of_ascii y) eqn:L1; [discriminate|].
  destruct (N_of_ascii y <? N_of_ascii x) eqn:L2; [reflexivity|].
  apply IH.
Qed.

Lemma leb_trans (a b c : string) :
  JSString.leb a b = true -> JSString.leb b c = true ->
  JSString.leb a c = true.
Proof.
  revert b c; induction a as [|x a IH]; intros [|y b] [|z c]; try easy.
  cbn [JSString.leb]. cbv zeta.
  destruct (N_of_ascii x <? N_of_ascii y) eqn:XY;
    destruct (N_of_ascii y <? N_of_ascii x) eqn:YX;
    destruct (N_of_ascii y <? N_of_ascii z) eqn:YZ;
    destruct (N_of_ascii z <? N_of_ascii y) eqn:ZY;
    destruct (N_of_ascii x <? N_of_ascii z) eqn:XZ;
    destruct (N_of_ascii z <? N_of_ascii x) eqn:ZX;
    try reflexivity; try discriminate;
    rewrite ?N.ltb_lt, ?N.ltb_ge in *; try lia.
  apply IH.
Qed.

Lemma insert_sorted_perm (x : string) (l : list string) :
  Permutation (JSObject.insert_sorted x l) (x :: l).
Proof.
  induction l as [|y l IH]; cbn [JSObject.insert_sorted]; [reflexivity|].
  destruct (JSString.leb x y); [reflexivity|].
  rewrite IH. apply perm_swap.
Qed.

Lemma sort_perm (l : list string) : Permutation (JSObject.sort l) l.
Proof.
  induction l as [|x l IH]; [reflexivity|].
  cbn [JSObject.sort fold_right]. fold (JSObject.sort l).
  rewrite insert_sorted_perm. now constructor.
Qed.

Lemma insert_sorted_sorted (x : string) (l : list string) :
  Sorted key_le l -> Sorted key_le (JSObject.insert_sorted x l).
Proof.
  induction l as [|y l IH]; intros S; cbn [JSObject.insert_sorted].
  - repeat constructor.
  - destruct (JSString.leb x y) eqn:L.
    + constructor; [assumption|]. constructor. exact L.
    + inversion S as [|? ? S' H]; subst.
      constructor; [now apply IH|].
      destruct l as [|z l]; cbn [JSObject.insert_sorted].
      * constructor. now apply leb_total.
      * destruct (JSString.leb x z).
        -- constructor. now apply leb_total.
        -- inversion H; subst. now constructor.
Qed.

Lemma sort_sorted (l : list string) : StronglySorted key_le (JSObject.sort l).
Proof.
  apply Sorted_StronglySorted.
  - intros a b c. apply leb_trans.
  - induction l as [|x l IH]; [constructor|].
    cbn [JSObject.sort fold_right]. now apply insert_sorted_sorted.
Qed.

(** Sorting keys that already ascend changes nothing. *)
Lemma sort_of_sorted (l : list string) :
  Sorted key_le l -> JSObject.sort l = l.
Proof.
  induction l as [|x l IH]; intros S; [reflexivity|].
  inversion S as [|? ? S' H]; subst.
  cbn [JSObject.sort fold_right]. fold (JSObject.sort l). rewrite (IH S').
  destruct l as [|y l]; [reflexivity|].
  inversion H as [|? ? L]; subst.
  cbn [JSObject.insert_sorted]. unfold key_le in L. now rewrite L.
Qed.

(** ** Objects *)

Lemma has_own_In (k : string) (o : JSObject.t) :
  JSObject.has_own k o = true <-> In k (JSObject.keys o).
Proof.
  unfold JSObject.has_own. rewrite existsb_exists. split.
  - intros (x & H & E). apply String.eqb_eq in E. now subst.
  - intros H. exists k. split; [assumption|apply String.eqb_refl].
Qed.

Lemma has_own_not_In (k : string) (o : JSObject.t) :
  JSObject.has_own k o = false <-> ~ In k (JSObject.keys o).
Proof.
  rewrite <- has_own_In. destruct (JSObject.has_own k o); split; congruence.
Qed.

Lemma keys_replace (k v : string) (o : JSObject.t) :
  JSObject.keys (JSObject.replace k v o) = JSObject.keys o.
Proof.
  induction o as [|[k' v'] o IH]; [reflexivity|].
  cbn [JSObject.replace]. destruct (String.eqb k k'); cbn; [reflexivity|].
  unfold JSObject.keys in IH. now rewrite IH.
Qed.

Lemma keys_app (o1 o2 : JSObject.t) :
  JSObject.keys (o1 ++ o2)%list
  = (JSObject.keys o1 ++ JSObject.keys o2)%list.
Proof. apply map_app. Qed.

Lemma get_None (k : string) (o : JSObject.t) :
  JSObject.get k o = None <-> ~ In k (JSObject.keys o).
Proof.
  induction o as [|[k' v'] o IH]; cbn [JSObject.get JSObject.keys map fst In].
  - tauto.
  - destruct (String.eqb k k') eqn:E.
    + apply String.eqb_eq in E. subst. split; [discriminate|tauto].
    + apply String.eqb_neq in E. unfold JSObject.keys in IH. rewrite IH.
      split; [intros H [C|C]; [congruence|tauto]|tauto].
Qed.

Lemma get_replace_same (k v : string) (o : JSObject.t) :
  In k (JSObject.keys o) -> JSObject.get k (JSObject.replace k v o) = Some v.
Proof.
  induction o as [|[k' v'] o IH]; [contradiction|].
  cbn [JSObject.keys map fst In JSObject.replace]. intros H.
  destruct (String.eqb k k') eqn:E; cbn [JSObject.get]; rewrite E; [reflexivity|].
  apply String.eqb_neq in E. destruct H as [H|H]; [congruence|now apply IH].
Qed.

Lemma get_replace_other (k k' v : string) (o : JSObject.t) :
  k' <> k -> JSObject.get k' (JSObject.replace k v o) = JSObject.get k' o.
Proof.
  intros NE. induction o as [|[k1 v1] o IH]; [reflexivity|].
  cbn [JSObject.replace]. destruct (String.eqb k k1) eqn:E; cbn [JSObject.get].
  - apply String.eqb_eq in E. subst k1.
    apply String.eqb_neq in NE. now rewrite NE.
  - now rewrite IH.
Qed.

Lemma get_app_last_same (k v : string) (o : JSObject.t) :
  ~ In k (JSObject.keys o) -> JSObject.get k (o ++ [(k, v)])%list = Some v.
Proof.
  induction o as [|[k1 v1] o IH]; cbn [app JSObject.get JSObject.keys map fst In].
  - now rewrite String.eqb_refl.
  - intros H. destruct (String.eqb k k1) eqn:E.
    + apply String.eqb_eq in E. symmetry in E. tauto.
    + apply IH. tauto.
Qed.

Lemma get_app_last_other (k k' v : string) (o : JSObject.t) :
  k' <> k -> JSObject.get k' (o ++ [(k, v)])%list = JSObject.get k' o.
Proof.
  intros NE. induction o as [|[k1 v1] o IH]; cbn [app JSObject.get].
  - apply String.eqb_neq in NE. now rewrite NE.
  - now rewrite IH.
Qed.

(** An assignment to a key that is neither an array index nor [__proto__]
    overwrites the property in place or appends it. *)
Lemma set_plain (k v : string) (o : JSObject.t) :
  plain_key k ->
  JSObject.set k v o
  = if JSObject.has_own k o then JSObject.replace k v o
    else (o ++ [(k, v)])%list.
Proof.
  intros [I P]. unfold JSObject.set, JSObject.define.
  destruct (JSObject.has_own k o); [reflexivity|].
  apply String.eqb_neq in P. now rewrite P, I.
Qed.

Lemma set_plain_spec (k v : string) (o : JSObject.t) :
  plain_key k -> NoDup (JSObject.keys o) ->
  NoDup (JSObject.keys (JSObject.set k v o)) /\
  (forall k', In k' (JSObject.keys (JSObject.set k v o))
              <-> In k' (JSObject.keys o) \/ k' = k) /\
  JSObject.get k (JSObject.set k v o) = Some v /\
  (forall k', k' <> k ->
              JSObject.get k' (JSObject.set k v o) = JSObject.get k' o).
Proof.
  intros P ND. rewrite (set_plain k v o P).
  destruct (JSObject.has_own k o) eqn:H.
  - apply has_own_In in H. rewrite keys_replace.
    repeat split; auto.
    + intros [?| ->]; assumption.
    + now apply get_replace_same.
    + intros k' NE. now apply get_replace_other.
  - apply has_own_not_In in H. rewrite keys_app.
    cbn [JSObject.keys map fst]. repeat split.
    + apply NoDup_app; [assumption|repeat constructor; intros []|].
      intros x Hx [<-|[]]. contradiction.
    + rewrite in_app_iff. cbn [In]. intros [?|[<-|[]]]; auto.
    + rewrite in_app_iff. cbn [In]. intros [?| ->]; auto.
    + now apply get_app_last_same.
    + intros k' NE. now apply get_app_last_other.
Qed.

Lemma start_key_plain (n : number) : plain_key (start_key n).
Proof. split; [reflexivity|discriminate]. Qed.

Lemma build_key_plain (n : number) : plain_key (build_key n).
Proof. split; [reflexivity|discriminate]. Qed.

Lemma start_build_distinct (n : number) : start_key n <> build_key n.
Proof. discriminate. Qed.

(** The copy loop over plain, distinct keys appends one entry per key. *)
Lemma copy_plain (scripts : JSObject.t) :
  forall (ks : list string) (acc : JSObject.t),
    NoDup ks ->
    (forall k, In k ks -> plain_key k /\ ~ In k (JSObject.keys acc)) ->
    fold_left
      (fun sorted key =>
         match JSObject.get key scripts with
         | Some v => JSObject.set key v sorted
         | None => sorted
         end) ks acc
    = (acc ++ flat_map (own_entry scripts) ks)%list.
Proof.
  induction ks as [|a ks IH]; intros acc ND H; cbn [fold_left flat_map].
  - now rewrite app_nil_r.
  - inversion ND as [|? ? NI ND']; subst.
    destruct (H a (or_introl eq_refl)) as [Pa Fa].
    unfold own_entry at 1.
    destruct (JSObject.get a scripts) as [v|] eqn:G.
    + rewrite (set_plain a v acc Pa).
      apply has_own_not_In in Fa. rewrite Fa.
      rewrite IH; [now rewrite <- app_assoc|assumption|].
      intros k Hk. destruct (H k (or_intror Hk)) as [Pk Fk].
      split; [assumption|]. rewrite keys_app, in_app_iff.
      cbn [JSObject.keys map fst In]. intros [?|[<-|[]]]; tauto.
    + apply IH; [assumption|]. intros k Hk. apply H. now right.
Qed.

Lemma keys_own_entries (scripts : JSObject.t) (ks : list string) :
  (forall k, In k ks -> In k (JSObject.keys scripts)) ->
  JSObject.keys (flat_map (own_entry scripts) ks) = ks.
Proof.
  induction ks as [|a ks IH]; intros H; [reflexivity|].
  cbn [flat_map]. rewrite keys_app, IH by (intros; apply H; now right).
  unfold own_entry. destruct (JSObject.get a scripts) eqn:G; [reflexivity|].
  apply get_None in G. exfalso. apply G, H. now left.
Qed.

Lemma get_own_entries (scripts : JSObject.t) (ks : list string) (k : string) :
  JSObject.get k (flat_map (own_entry scripts) ks)
  = if existsb (String.eqb k) ks then JSObject.get k scripts else None.
Proof.
  induction ks as [|a ks IH]; [reflexivity|].
  cbn [flat_map existsb]. unfold own_entry at 1.
  destruct (JSObject.get a scripts) as [v|] eqn:G.
  - cbn [app JSObject.get]. destruct (String.eqb k a) eqn:E; [|exact IH].
    apply String.eqb_eq in E. subst. now rewrite G.
  - cbn [app]. rewrite IH. destruct (String.eqb k a) eqn:E; [|reflexivity].
    apply String.eqb_eq in E. subst. rewrite G.
    now destruct (existsb (String.eqb a) ks).
Qed.

(** On an object of plain keys the sort step leaves exactly the sorted keys,
    each with its value. *)
Lemma sortedScripts_plain (scripts : JSObject.t) :
  (forall k, In k (JSObject.keys scripts) -> plain_key k) ->
  NoDup (JSObject.keys scripts) ->
  JSObject.keys (sortedScripts scripts) = JSObject.sort (JSObject.keys scripts) /\
  forall k, JSObject.get k (sortedScripts scripts) = JSObject.get k scripts.
Proof.
  intros P ND.
  pose proof (sort_perm (JSObject.keys scripts)) as Perm.
  assert (sortedScripts scripts
          = flat_map (own_entry scripts) (JSObject.sort (JSObject.keys scripts)))
    as E.
  { unfold sortedScripts. rewrite copy_plain; [reflexivity| |].
    - apply (Permutation_NoDup (Permutation_sym Perm) ND).
    - intros k Hk. split; [|intros []].
      apply P. now apply (Permutation_in _ Perm). }
  rewrite E. split.
  - apply keys_own_entries. intros k. apply (Permutation_in _ Perm).
  - intros k. rewrite get_own_entries.
    destruct (existsb (String.eqb k) (JSObject.sort (JSObject.keys scripts)))
      eqn:X; [reflexivity|].
    symmetry. apply get_None. intros Hk.
    apply (Permutation_in _ (Permutation_sym Perm)) in Hk.
    assert (existsb (String.eqb k) (JSObject.sort (JSObject.keys scripts)) = true)
      by (apply existsb_exists; exists k; split;
          [assumption|apply String.eqb_refl]).
    congruence.
Qed.

(** ** C2: the manifest update *)

Lemma add_scripts_spec (n : number) (exerciseName : string) (o : JSObject.t) :
  NoDup (JSObject.keys o) ->
  NoDup (JSObject.keys (add_scripts n exerciseName o)) /\
  (forall k, In k (JSObject.keys (add_scripts n exerciseName o))
             <-> In k (JSObject.keys o) \/ k = start_key n \/ k = build_key n) /\
  (forall k, k <> start_key n -> k <> build_key n ->
             JSObject.get k (add_scripts n exerciseName o) = JSObject.get k o) /\
  JSObject.get (start_key n) (add_scripts n exerciseName o)
  = Some (start_command n exerciseName) /\
  JSObject.get (build_key n) (add_scripts n exerciseName o)
  = Some (build_command n exerciseName).
Proof.
  intros ND. unfold add_scripts.
  destruct (set_plain_spec (start_key n) (start_command n exerciseName) o
              (start_key_plain n) ND) as (ND1 & K1 & G1 & O1).
  destruct (set_plain_spec (build_key n) (build_command n exerciseName) _
              (build_key_plain n) ND1) as (ND2 & K2 & G2 & O2).
  repeat split; auto.
  - intros H. apply K2 in H as [H|H]; [apply K1 in H|]; tauto.
  - intros [H|[H|H]]; apply K2; [left; apply K1| left; apply K1|]; tauto.
  - intros k S B. rewrite O2, O1; auto.
  - rewrite O2; [assumption|apply start_build_distinct].
Qed.

(** What [JSON.parse] builds has distinct keys. *)
Lemma keys_insert_index (k v : string) (o : JSObject.t) :
  Permutation (JSObject.keys (JSObject.insert_index k v o)) (k :: JSObject.keys o).
Proof.
  induction o as [|[k' v'] o IH]; cbn [JSObject.insert_index]; [reflexivity|].
  destruct (JSObject.is_array_index k'
            && (JSObject.index_value k' <? JSObject.index_value k)).
  - cbn [JSObject.keys map fst] in *. rewrite IH. apply perm_swap.
  - reflexivity.
Qed.

Lemma define_NoDup (k v : string) (o : JSObject.t) :
  NoDup (JSObject.keys o) -> NoDup (JSObject.keys (JSObject.define k v o)).
Proof.
  intros ND. unfold JSObject.define.
  destruct (JSObject.has_own k o) eqn:H.
  - now rewrite keys_replace.
  - apply has_own_not_In in H.
    assert (NoDup (k :: JSObject.keys o)) as ND' by now constructor.
    destruct (JSObject.is_array_index k).
    + apply (Permutation_NoDup (Permutation_sym (keys_insert_index k v o)) ND').
    + rewrite keys_app. cbn [JSObject.keys map fst].
      apply (Permutation_NoDup (Permutation_cons_append _ _) ND').
Qed.

Lemma JSON_parse_NoDup (members : list (string * string)) :
  NoDup (JSObject.keys (JSObject.JSON_parse members)).
Proof.
  unfold JSObject.JSON_parse.
  assert (forall o, NoDup (JSObject.keys o) ->
            NoDup (JSObject.keys
                     (fold_left (fun o m => JSObject.define (fst m) (snd m) o)
                        members o))) as G.
  { induction members as [|m members IH]; intros o ND; [assumption|].
    cbn [fold_left]. apply IH. now apply define_NoDup. }
  apply G. constructor.
Qed.

Lemma keys_define (k k' v : string) (o : JSObject.t) :
  In k (JSObject.keys (JSObject.define k' v o)) ->
  k = k' \/ In k (JSObject.keys o).
Proof.
  unfold JSObject.define.
  destruct (JSObject.has_own k' o); [rewrite keys_replace; tauto|].
  destruct (JSObject.is_array_index k').
  - intros H. apply (Permutation_in _ (keys_insert_index k' v o)) in H.
    destruct H as [<-|H]; tauto.
  - rewrite keys_app, in_app_iff. cbn. intuition.
Qed.

Lemma keys_JSON_parse (members : list (string * string)) (k : string) :
  In k (JSObject.keys (JSObject.JSON_parse members)) -> In k (map fst members).
Proof.
  unfold JSObject.JSON_parse.
  assert (forall o,
            In k (JSObject.keys
                    (fold_left (fun o m => JSObject.define (fst m) (snd m) o)
                       members o)) ->
            In k (map fst members) \/ In k (JSObject.keys o)) as G.
  { induction members as [|m members IH]; intros o H; [now right|].
    cbn [fold_left] in H. apply IH in H as [H|H]; [left; now right|].
    apply keys_define in H as [->|H]; [left; now left|now right]. }
  intros H. apply G in H as [H|[]]. exact H.
Qed.

(** The update on any object of distinct plain keys. *)
Lemma update_scripts_object (n : number) (exerciseName : string)
    (o : JSObject.t) :
  NoDup (JSObject.keys o) ->
  (forall k, In k (JSObject.keys o) -> plain_key k) ->
  (forall k, In k (JSObject.keys (update_scripts n exerciseName o))
             <-> In k (JSObject.keys o) \/ k = start_key n \/ k = build_key n) /\
  NoDup (JSObject.keys (update_scripts n exerciseName o)) /\
  StronglySorted key_le (JSObject.keys (update_scripts n exerciseName o)) /\
  (forall k, k <> start_key n -> k <> build_key n ->
             JSObject.get k (update_scripts n exerciseName o) = JSObject.get k o) /\
  JSObject.get (start_key n) (update_scripts n exerciseName o)
  = Some (start_command n exerciseName) /\
  JSObject.get (build_key n) (update_scripts n exerciseName o)
  = Some (build_command n exerciseName).
Proof.
  intros ND P.
  destruct (add_scripts_spec n exerciseName o ND) as (ND1 & K & O & S & B).
  assert (forall k, In k (JSObject.keys (add_scripts n exerciseName o)) ->
                    plain_key k) as P1.
  { intros k H. apply K in H as [H|[->| ->]];
      [now apply P|apply start_key_plain|apply build_key_plain]. }
  destruct (sortedScripts_plain _ P1 ND1) as (Ks & G).
  pose proof (sort_perm (JSObject.keys (add_scripts n exerciseName o))) as Perm.
  unfold update_scripts. rewrite Ks. repeat split.
  - intros H. apply K. now apply (Permutation_in _ Perm).
  - intros H. apply (Permutation_in _ (Permutation_sym Perm)). now apply K.
  - apply (Permutation_NoDup (Permutation_sym Perm) ND1).
  - apply sort_sorted.
  - intros k Hs Hb. rewrite G. now apply O.
  - now rewrite G.
  - now rewrite G.
Qed.

(** The manifest stage writes the updated scripts and carries the other
    members along. *)
Lemma update_manifest_writes (dirname : string) (n : number)
    (exerciseName : string) (s : State)
    (members others : list (string * string)) :
  package_json (fs s) = Json (mkPackageJson (Some members) others) ->
  update_manifest dirname n exerciseName s
  = (Normal tt,
     mkState
       (mkFileSystem (projects (fs s))
          (Json (mkPackageJson
                   (Some (update_scripts n exerciseName
                            (JSObject.JSON_parse members)))
                   others))
          (readmes (fs s)))
       (events s ++
        [Log (JSString.LF ++ "Step 2: Updating package.json...");
         ReadFileSync (packageJsonPath dirname);
         WriteFileSync (packageJsonPath dirname)])).
Proof.
  intros H. destruct s as [f es]. cbn [fs events] in *.
  unfold update_manifest, read_packageJson, write_packageJson, console_log,
    bind, emit, get_fs, put_fs, ret.
  cbn [fs events]. rewrite H. cbn [scripts other_members fs events].
  rewrite <- !app_assoc. reflexivity.
Qed.

(** C2, as the code has it.  Let the [scripts] of the manifest have no key
    that is an array index or [__proto__].  After the update the keys are
    the old keys and the two new ones, each once, in ascending order; every
    key other than the two new ones keeps its value; [start:ex<NN>] and
    [build:ex<NN>] hold the new commands, also when they were there before.
    From scripts [start:ex01] and [zzz], adding those of [ex06] gives the
    keys [build:ex06], [start:ex01], [start:ex06], [zzz] with the two old
    values unchanged. *)
Theorem update_scripts_spec (n : number) (exerciseName : string)
    (members : list (string * string)) :
  (forall k, In k (map fst members) -> plain_key k) ->
  (forall k,
      In k (JSObject.keys
              (update_scripts n exerciseName (JSObject.JSON_parse members)))
      <-> In k (JSObject.keys (JSObject.JSON_parse members))
          \/ k = start_key n \/ k = build_key n) /\
  NoDup (JSObject.keys
           (update_scripts n exerciseName (JSObject.JSON_parse members))) /\
  StronglySorted key_le
    (JSObject.keys
       (update_scripts n exerciseName (JSObject.JSON_parse members))) /\
  (forall k, k <> start_key n -> k <> build_key n ->
      JSObject.get k
        (update_scripts n exerciseName (JSObject.JSON_parse members))
      = JSObject.get k (JSObject.JSON_parse members)) /\
  JSObject.get (start_key n)
    (update_scripts n exerciseName (JSObject.JSON_parse members))
  = Some (start_command n exerciseName) /\
  JSObject.get (build_key n)
    (update_scripts n exerciseName (JSObject.JSON_parse members))
  = Some (build_command n exerciseName) /\
  (forall a b,
      update_scripts (Fin 6) "routing"
        (JSObject.JSON_parse [("start:ex01", a); ("zzz", b)])
      = [("build:ex06", "ng build exercise-06-routing");
         ("start:ex01", a);
         ("start:ex06", "ng serve exercise-06-routing --port 4206");
         ("zzz", b)]).
Proof.
  intros P.
  destruct (update_scripts_object n exerciseName (JSObject.JSON_parse members)
              (JSON_parse_NoDup members)
              (fun k H => P k (keys_JSON_parse members k H)))
    as (K & ND & S & O & GS & GB).
  repeat split; auto; apply K.
Qed.

Lemma update_scripts_spec_witness :
  (forall k, In k (map fst [("zzz", "echo z"); ("start:ex01", "ng serve")]) ->
             plain_key k) /\
  JSObject.keys
    (update_scripts (Fin 6) "routing"
       (JSObject.JSON_parse [("zzz", "echo z"); ("start:ex01", "ng serve")]))
  = ["build:ex06"; "start:ex01"; "start:ex06"; "zzz"] /\
  StronglySorted key_le
    (JSObject.keys
       (update_scripts (Fin 6) "routing"
          (JSObject.JSON_parse [("zzz", "echo z"); ("start:ex01", "ng serve")]))).
Proof.
  assert (forall k,
            In k (map fst [("zzz", "echo z"); ("start:ex01", "ng serve")]) ->
            plain_key k) as P.
  { cbn. intros k [<-|[<-|[]]]; split; (reflexivity || discriminate). }
  split; [exact P|]. split; [reflexivity|].
  exact (proj1 (proj2 (proj2
           (update_scripts_spec (Fin 6) "routing" _ P)))).
Defined.

(** C2 as stated fails where a key of the update is already there: with
    exercises 01 to 05 on disk and a stale [start:ex06] in the manifest, the
    update overwrites that entry, so not every pre-existing key keeps its
    value. *)
Lemma update_scripts_overwrites :
  ~ (forall k v,
        JSObject.get k
          (JSObject.JSON_parse [("start:ex06", "ng serve exercise-06-forms")])
        = Some v ->
        JSObject.get k
          (update_scripts (nextNumber (projects sample_fs)) "routing"
             (JSObject.JSON_parse [("start:ex06", "ng serve exercise-06-forms")]))
        = Some v).
Proof.
  intros H.
  specialize (H "start:ex06" "ng serve exercise-06-forms" eq_refl).
  vm_compute in H. discriminate H.
Qed.

(** With array-index keys the order of [Object.keys] shows: they come
    first, by value, whatever the order of the assignments. *)
Example update_scripts_index_keys :
  JSObject.keys
    (update_scripts (Fin 6) "routing"
       (JSObject.JSON_parse [("10", "echo ten"); ("9", "echo nine")]))
  = ["9"; "10"; "build:ex06"; "start:ex06"] /\
  JSString.leb "9" "10" = false.
Proof. split; reflexivity. Qed.

(** ** Array indices are ordered by value in every object the script builds *)

Lemma value_same_length_inj (a : string) :
  forall b, Decimal.all_digits a = true -> Decimal.all_digits b = true ->
    String.length a = String.length b ->
    Decimal.value_from 0 a = Decimal.value_from 0 b -> a = b.
Proof.
  induction a as [|c a IH]; intros [|c' b] A B L V; try discriminate;
    [reflexivity|].
  dec_simpl_in A. dec_simpl_in B. dec_simpl_in L. dec_simpl_in V.
  apply andb_true_iff in A as [D A]. apply andb_true_iff in B as [D' B].
  injection L as L.
  rewrite (value_from_acc a), (value_from_acc b), <- L in V.
  pose proof (value_bound a A) as Ba. pose proof (value_bound b B) as Bb.
  rewrite <- L in Bb.
  destruct (is_digit_value c D) as [Hc _], (is_digit_value c' D') as [Hc' _].
  set (P := 10 ^ N.of_nat (String.length a)) in *.
  assert (Decimal.digit_value c = Decimal.digit_value c') as E1.
  { destruct (N.lt_trichotomy (Decimal.digit_value c) (Decimal.digit_value c'))
      as [T|[T|T]]; [exfalso|assumption|exfalso]; nia. }
  assert (Decimal.value_from 0 a = Decimal.value_from 0 b) as E2
    by (rewrite E1 in V; lia).
  f_equal; [now apply digit_value_inj|now apply IH].
Qed.

Lemma array_index_canonical (k : string) :
  JSObject.is_array_index k = true ->
  Decimal.all_digits k = true /\
  (1 <= String.length k)%nat /\
  ((2 <= String.length k)%nat ->
   10 ^ N.of_nat (String.length k - 1) <= Decimal.value_from 0 k).
Proof.
  destruct k as [|c rest]; [discriminate|].
  unfold JSObject.is_array_index. intros H.
  apply andb_true_iff in H as [H _]. apply andb_true_iff in H as [A Z].
  split; [assumption|]. split; [cbn; lia|].
  intros L. dec_simpl_in A. apply andb_true_iff in A as [D A].
  apply orb_true_iff in Z as [Z|Z].
  - destruct (is_digit_value c D) as [_ V].
    assert (1 <= Decimal.digit_value c) as P.
    { destruct (N.eq_dec (Decimal.digit_value c) 0) as [E|E]; [|lia].
      exfalso. rewrite E in V. apply negb_true_iff in Z.
      apply Ascii.eqb_neq in Z. apply Z.
      rewrite <- (ascii_N_embedding c), V. reflexivity. }
    dec_simpl. rewrite value_from_acc.
    replace (S (String.length rest) - 1)%nat with (String.length rest) by lia.
    nia.
  - apply String.eqb_eq in Z. subst. cbn in L. lia.
Qed.

(** Distinct array indices have distinct values. *)
Lemma index_value_inj (a b : string) :
  JSObject.is_array_index a = true -> JSObject.is_array_index b = true ->
  JSObject.index_value a = JSObject.index_value b -> a = b.
Proof.
  intros Ia Ib V. unfold JSObject.index_value in V.
  destruct (array_index_canonical a Ia) as (Aa & La & Ha).
  destruct (array_index_canonical b Ib) as (Ab & Lb & Hb).
  pose proof (value_bound a Aa) as Ba. pose proof (value_bound b Ab) as Bb.
  apply value_same_length_inj; auto.
  destruct (Nat.lt_trichotomy (String.length a) (String.length b))
    as [L|[L|L]]; [exfalso|assumption|exfalso].
  - assert (10 ^ N.of_nat (String.length a)
            <= 10 ^ N.of_nat (String.length b - 1))
      by (apply N.pow_le_mono_r; lia).
    specialize (Hb ltac:(lia)). lia.
  - assert (10 ^ N.of_nat (String.length b)
            <= 10 ^ N.of_nat (String.length a - 1))
      by (apply N.pow_le_mono_r; lia).
    specialize (Ha ltac:(lia)). lia.
Qed.

Lemma index_ordered_nil : index_ordered JSObject.empty.
Proof. intros [|? ?] k l2 E; discriminate E. Qed.

Lemma index_ordered_cons (k0 v0 : string) (o : JSObject.t) :
  index_ordered ((k0, v0) :: o) <->
  index_ordered o /\
  (forall k, In k (JSObject.keys o) -> JSObject.is_array_index k = true ->
     JSObject.is_array_index k0 = true /\
     JSObject.index_value k0 < JSObject.index_value k).
Proof.
  unfold index_ordered, JSObject.keys. cbn [map fst]. split.
  - intros H. split.
    + intros l1 k l2 E I k' Hk.
      apply (H (k0 :: l1) k l2); [now rewrite E|assumption|now right].
    + intros k Hk I. apply in_split in Hk as (l1 & l2 & E).
      apply (H (k0 :: l1) k l2); [now rewrite E|assumption|now left].
  - intros [H1 H2] l1 k l2 E I k' Hk.
    destruct l1 as [|x l1]; [contradiction|].
    injection E as <- E. destruct Hk as [<-|Hk].
    + apply H2; [|assumption]. rewrite E.
      apply in_or_app. right. now left.
    + now apply (H1 l1 k l2).
Qed.

Lemma index_ordered_replace (k v : string) (o : JSObject.t) :
  index_ordered o -> index_ordered (JSObject.replace k v o).
Proof. unfold index_ordered. now rewrite keys_replace. Qed.

Lemma index_ordered_append (k v : string) (o : JSObject.t) :
  JSObject.is_array_index k = false ->
  index_ordered o -> index_ordered (o ++ [(k, v)])%list.
Proof.
  intros NI. induction o as [|[k0 v0] o IH]; intros H.
  - apply index_ordered_cons. split; [apply index_ordered_nil|intros ? []].
  - apply index_ordered_cons in H as [H1 H2].
    cbn [app]. apply index_ordered_cons. split; [now apply IH|].
    intros k1 Hk I. apply H2; [|assumption].
    rewrite keys_app, in_app_iff in Hk. cbn [JSObject.keys map fst In] in Hk.
    destruct Hk as [Hk|[<-|[]]]; [assumption|congruence].
Qed.

Lemma index_ordered_insert (k v : string) (o : JSObject.t) :
  JSObject.is_array_index k = true -> ~ In k (JSObject.keys o) ->
  index_ordered o -> index_ordered (JSObject.insert_index k v o).
Proof.
  intros I. induction o as [|[k0 v0] o IH]; intros NI H.
  - apply index_ordered_cons. split; [apply index_ordered_nil|intros ? []].
  - cbn [JSObject.keys map fst In] in NI.
    apply index_ordered_cons in H as H'. destruct H' as [H1 H2].
    cbn [JSObject.insert_index].
    destruct (JSObject.is_array_index k0
              && (JSObject.index_value k0 <? JSObject.index_value k)) eqn:C.
    + apply andb_true_iff in C as [I0 L]. apply N.ltb_lt in L.
      apply index_ordered_cons. split; [apply IH; tauto|].
      intros k1 Hk I1.
      apply (Permutation_in _ (keys_insert_index k v o)) in Hk.
      destruct Hk as [<-|Hk]; [tauto|now apply H2].
    + assert (JSObject.is_array_index k0 = true ->
              JSObject.index_value k < JSObject.index_value k0) as Lt.
      { intros I0. rewrite I0 in C. cbn [andb] in C. apply N.ltb_ge in C.
        destruct (N.eq_dec (JSObject.index_value k) (JSObject.index_value k0))
          as [E|E]; [|lia].
        apply (index_value_inj k k0 I I0) in E. subst. tauto. }
      apply index_ordered_cons. split; [assumption|].
      intros k1 [<-|Hk] I1; split; try assumption.
      * now apply Lt.
      * destruct (H2 k1 Hk I1) as [I0 L]. specialize (Lt I0). lia.
Qed.

Lemma index_ordered_define (k v : string) (o : JSObject.t) :
  index_ordered o -> index_ordered (JSObject.define k v o).
Proof.
  intros H. unfold JSObject.define.
  destruct (JSObject.has_own k o) eqn:Own;
    [now apply index_ordered_replace|].
  apply has_own_not_In in Own.
  destruct (JSObject.is_array_index k) eqn:I.
  - now apply index_ordered_insert.
  - now apply index_ordered_append.
Qed.

Lemma index_ordered_set (k v : string) (o : JSObject.t) :
  index_ordered o -> index_ordered (JSObject.set k v o).
Proof.
  intros H. unfold JSObject.set.
  destruct (JSObject.has_own k o); [now apply index_ordered_replace|].
  destruct (String.eqb k "__proto__"); [assumption|].
  now apply index_ordered_define.
Qed.

Lemma JSON_parse_index_ordered (members : list (string * string)) :
  index_ordered (JSObject.JSON_parse members).
Proof.
  unfold JSObject.JSON_parse.
  assert (forall o, index_ordered o ->
            index_ordered
              (fold_left (fun o m => JSObject.define (fst m) (snd m) o)
                 members o)) as G.
  { induction members as [|m members IH]; intros o H; [assumption|].
    cbn [fold_left]. apply IH. now apply index_ordered_define. }
  apply G, index_ordered_nil.
Qed.

(** ** C9: the sort step on keys that already ascend *)

Lemma get_app_skip (k : string) (o1 o2 : JSObject.t) :
  ~ In k (JSObject.keys o1) ->
  JSObject.get k (o1 ++ o2)%list = JSObject.get k o2.
Proof.
  induction o1 as [|[k1 v1] o1 IH]; intros H; [reflexivity|].
  cbn [app JSObject.get]. cbn [JSObject.keys map fst In] in H.
  destruct (String.eqb k k1) eqn:E.
  - apply String.eqb_eq in E. symmetry in E. tauto.
  - apply IH. tauto.
Qed.

Lemma insert_index_append (k v : string) (o : JSObject.t) :
  (forall k', In k' (JSObject.keys o) ->
     JSObject.is_array_index k' = true /\
     JSObject.index_value k' < JSObject.index_value k) ->
  JSObject.insert_index k v o = (o ++ [(k, v)])%list.
Proof.
  induction o as [|[k1 v1] o IH]; intros H; [reflexivity|].
  cbn [JSObject.insert_index app].
  destruct (H k1 (or_introl eq_refl)) as [I L].
  apply N.ltb_lt in L. rewrite I, L. cbn [andb].
  rewrite IH; [reflexivity|]. intros k' Hk. apply H. now right.
Qed.

(** Copying the entries of a well-formed object without [__proto__] in
    their own order rebuilds the object. *)
Lemma copy_in_order (o : JSObject.t) :
  NoDup (JSObject.keys o) -> index_ordered o ->
  ~ In "__proto__" (JSObject.keys o) ->
  forall o2 o1 : JSObject.t, o = (o1 ++ o2)%list ->
    fold_left
      (fun sorted key =>
         match JSObject.get key o with
         | Some v => JSObject.set key v sorted
         | None => sorted
         end) (JSObject.keys o2) o1
    = o.
Proof.
  intros ND Ord NP.
  induction o2 as [|[k v] o2 IH]; intros o1 E.
  - cbn. now rewrite E, app_nil_r.
  - cbn [JSObject.keys map fst fold_left].
    assert (JSObject.keys o
            = (JSObject.keys o1 ++ k :: JSObject.keys o2)%list) as EK
      by (rewrite E, keys_app; reflexivity).
    assert (~ In k (JSObject.keys o1)) as NI.
    { rewrite EK in ND. apply NoDup_remove_2 in ND.
      intros C. apply ND, in_or_app. now left. }
    assert (JSObject.get k o = Some v) as G.
    { rewrite E, (get_app_skip k o1 _ NI). cbn [JSObject.get].
      now rewrite String.eqb_refl. }
    assert (k <> "__proto__") as KP.
    { intros ->. apply NP. rewrite EK. apply in_or_app. right. now left. }
    assert (JSObject.set k v o1 = (o1 ++ [(k, v)])%list) as S.
    { unfold JSObject.set, JSObject.define.
      apply has_own_not_In in NI. rewrite NI.
      apply String.eqb_neq in KP. rewrite KP.
      destruct (JSObject.is_array_index k) eqn:I; [|reflexivity].
      apply insert_index_append. intros k' Hk.
      exact (Ord _ _ _ EK I k' Hk). }
    rewrite G, S. apply IH. rewrite E, <- app_assoc. reflexivity.
Qed.

(** On a well-formed object without the key [__proto__] whose keys already
    ascend, the sort step is the identity. *)
Lemma sortedScripts_of_sorted (o : JSObject.t) :
  NoDup (JSObject.keys o) -> index_ordered o ->
  ~ In "__proto__" (JSObject.keys o) ->
  Sorted key_le (JSObject.keys o) ->
  sortedScripts o = o.
Proof.
  intros ND Ord NP S. unfold sortedScripts.
  rewrite (sort_of_sorted _ S).
  now apply (copy_in_order o ND Ord NP o JSObject.empty).
Qed.

Lemma plain_index_ordered (o : JSObject.t) :
  (forall k, In k (JSObject.keys o) -> plain_key k) -> index_ordered o.
Proof.
  intros P l1 k l2 E I. exfalso.
  assert (In k (JSObject.keys o)) as H
    by (rewrite E; apply in_or_app; right; now left).
  destruct (P k H) as [C _]. congruence.
Qed.

(** Running the sort step a second time changes nothing, on any object of
    distinct plain keys. *)
Lemma sortedScripts_twice (o : JSObject.t) :
  (forall k, In k (JSObject.keys o) -> plain_key k) ->
  NoDup (JSObject.keys o) ->
  sortedScripts (sortedScripts o) = sortedScripts o.
Proof.
  intros P ND. destruct (sortedScripts_plain o P ND) as (Ks & _).
  pose proof (sort_perm (JSObject.keys o)) as Perm.
  assert (forall k, In k (JSObject.keys (sortedScripts o)) -> plain_key k) as P'.
  { intros k H. rewrite Ks in H. apply P. now apply (Permutation_in _ Perm). }
  apply sortedScripts_of_sorted.
  - rewrite Ks. apply (Permutation_NoDup (Permutation_sym Perm) ND).
  - now apply plain_index_ordered.
  - intros H. now destruct (P' _ H) as [_ C].
  - rewrite Ks. apply StronglySorted_Sorted, sort_sorted.
Qed.

(** For every parsed manifest without a script named [__proto__] whose keys
    ascend, the sort step is the identity. *)
Lemma sortedScripts_parsed_sorted (members : list (string * string)) :
  ~ In "__proto__" (map fst members) ->
  Sorted key_le (JSObject.keys (JSObject.JSON_parse members)) ->
  sortedScripts (JSObject.JSON_parse members) = JSObject.JSON_parse members.
Proof.
  intros NP S. apply sortedScripts_of_sorted.
  - apply JSON_parse_NoDup.
  - apply JSON_parse_index_ordered.
  - intros H. apply NP. now apply keys_JSON_parse.
  - assumption.
Qed.

(** C9 fails on the code.  With no projects directory and the scripts
    [__proto__], [build:ex01] and [start:ex01] in the manifest, the mapping
    that reaches the sort step has ascending keys, and the sort step loses
    [__proto__]: the assignment of line 99 reaches the setter of
    [Object.prototype] instead of creating the property.  The manifest
    written by the run lacks the entry. *)
Theorem sortedScripts_drops_proto :
  add_scripts (nextNumber None) "basics" (JSObject.JSON_parse proto_scripts)
  = proto_scripts /\
  StronglySorted key_le (JSObject.keys proto_scripts) /\
  sortedScripts proto_scripts
  = [("build:ex01", "ng build exercise-01-basics");
     ("start:ex01", "ng serve exercise-01-basics --port 4201")] /\
  sortedScripts proto_scripts <> proto_scripts /\
  package_json
    (run_fs (run "/repo" (creating_generator "exercise-01-basics") no_directory
                sample_toUpperCase (Some "basics") proto_fs))
  = Json (mkPackageJson
            (Some [("build:ex01", "ng build exercise-01-basics");
                   ("start:ex01", "ng serve exercise-01-basics --port 4201")])
            []).
Proof.
  split; [reflexivity|]. split; [repeat constructor|].
  split; [reflexivity|]. split; [discriminate|reflexivity].
Qed.

(** ** The end-to-end scenario of the specification *)

Example end_to_end :
  exit_status
    (run "/repo" (creating_generator "exercise-06-routing") no_directory
        sample_toUpperCase (Some "routing") sample_fs) = 0 /\
  projects
    (run_fs (run "/repo" (creating_generator "exercise-06-routing") no_directory
                sample_toUpperCase (Some "routing") sample_fs))
  = Some ["exercise-01-basics"; "exercise-02-components";
          "exercise-03-data-binding"; "exercise-04-directives";
          "exercise-05-services"; "exercise-06-routing"] /\
  package_json
    (run_fs (run "/repo" (creating_generator "exercise-06-routing") no_directory
                sample_toUpperCase (Some "routing") sample_fs))
  = Json (mkPackageJson
            (Some [("build:ex06", "ng build exercise-06-routing");
                   ("start:ex01", "ng serve exercise-01-basics --port 4201");
                   ("start:ex06", "ng serve exercise-06-routing --port 4206");
                   ("zzz", "echo z")])
            [("name", "angular-learning")]) /\
  match readmes
          (run_fs
             (run "/repo" (creating_generator "exercise-06-routing") no_directory
                 sample_toUpperCase (Some "routing") sample_fs)) with
  | [(dir, text)] =>
      dir = "exercise-06-routing" /\
      String.index 0 "http://localhost:4206" text <> None
  | _ => False
  end.
Proof.
  vm_compute. repeat split; discriminate.
Qed.

(** * Further properties of the script *)

(** ** The allocator: fresh names, no collisions, round trip *)

Lemma append_inj_l (a x y : string) : a ++ x = a ++ y -> x = y.
Proof.
  induction a as [|c a IH]; cbn [String.append]; intros H; [assumption|].
  injection H as H. now apply IH.
Qed.

Lemma seq_value_fullExerciseName (n : N) (topic : string) :
  n <= 2 ^ 53 ->
  JSString.startsWith "exercise-" (fullExerciseName (Fin n) topic) = true /\
  seq_value (fullExerciseName (Fin n) topic) = n.
Proof. intros B. now apply contributes_iff, fullExerciseName_contributes. Qed.

Lemma list_max_incl (l l' : list N) :
  (forall v, In v l -> In v l') -> list_max l <= list_max l'.
Proof.
  intros H. destruct l as [|x l]; [cbn; lia|].
  apply list_max_ge, H, list_max_in. discriminate.
Qed.

(** X1. While every number shown by an entry is below 2^53, the directory
    name allocated from a listing is never one of its entries: an entry of
    that name would have contributed the allocated number, which exceeds
    every contribution. *)
Theorem allocated_name_fresh (entries : list string) (topic : string) :
  numbers_below (2 ^ 53) entries ->
  ~ In (fullExerciseName (nextNumber (Some entries)) topic) entries.
Proof.
  intros B. rewrite nextNumber_closed. intros H.
  assert (list_max (candidates entries) < 2 ^ 53) as L
    by (apply candidates_below; [reflexivity|assumption]).
  rewrite (next_of_safe _ L) in H.
  assert (list_max (candidates entries) + 1 <= list_max (candidates entries));
    [|lia].
  apply list_max_ge, candidates_in.
  exists (fullExerciseName (Fin (list_max (candidates entries) + 1)) topic).
  split; [assumption|apply fullExerciseName_contributes; lia].
Qed.

Lemma allocated_name_fresh_witness :
  numbers_below (2 ^ 53) ["exercise-01-basics"; "exercise-06-routing"] /\
  ~ In (fullExerciseName
          (nextNumber (Some ["exercise-01-basics"; "exercise-06-routing"]))
          "routing")
       ["exercise-01-basics"; "exercise-06-routing"].
Proof.
  split; [exact sample_numbers_below|].
  exact (allocated_name_fresh _ "routing" sample_numbers_below).
Defined.

(** X2. Different sequence numbers up to 2^53 never share a directory name
    or a script key, whatever the topics; nor a port, as long as the ports
    are up to 2^53 as well. *)
Theorem distinct_numbers_distinct_names (n m : N) (t t' : string) :
  n <> m -> n <= 2 ^ 53 -> m <= 2 ^ 53 ->
  fullExerciseName (Fin n) t <> fullExerciseName (Fin m) t' /\
  start_key (Fin n) <> start_key (Fin m) /\
  build_key (Fin n) <> build_key (Fin m) /\
  (4200 + n <= 2 ^ 53 -> 4200 + m <= 2 ^ 53 -> port (Fin n) <> port (Fin m)).
Proof.
  intros NE Bn Bm.
  assert (paddedNumber (Fin n) <> paddedNumber (Fin m)) as P.
  { intros E. apply NE.
    destruct (paddedNumber_digits n Bn) as (_ & <- & _).
    destruct (paddedNumber_digits m Bm) as (_ & <- & _). now rewrite E. }
  split; [|split; [|split]].
  - intros E. apply NE.
    destruct (seq_value_fullExerciseName n t Bn) as [_ <-].
    destruct (seq_value_fullExerciseName m t' Bm) as [_ <-]. now rewrite E.
  - unfold start_key, shortName. intros E.
    apply (append_inj_l "start:ex") in E. now apply P.
  - unfold build_key, shortName. intros E.
    apply (append_inj_l "build:ex") in E. now apply P.
  - intros Pn Pm. rewrite (port_safe n Pn), (port_safe m Pm). intros E.
    assert (4200 + n = 4200 + m) by congruence. lia.
Qed.

Lemma distinct_numbers_distinct_names_witness :
  6 <> 16 /\ 6 <= 2 ^ 53 /\ 16 <= 2 ^ 53 /\
  fullExerciseName (Fin 6) "forms" <> fullExerciseName (Fin 16) "forms" /\
  start_key (Fin 6) <> start_key (Fin 16).
Proof.
  assert (6 <> 16) as H by discriminate.
  assert (6 <= 2 ^ 53) as B6 by (vm_compute; discriminate).
  assert (16 <= 2 ^ 53) as B16 by (vm_compute; discriminate).
  split; [exact H|]. split; [exact B6|]. split; [exact B16|].
  destruct (distinct_numbers_distinct_names 6 16 "forms" "forms" H B6 B16)
    as (A & B & _).
  split; [exact A|exact B].
Defined.

(** X3. Up to 2^53 the allocator reads back what it writes: [parseInt] of
    the decimal numeral and of the padded numeral of [n] is [n], and the
    entry [exercise-<padded n>-<topic>] counts as exactly [n], for every
    topic, also one that begins with digits or hyphens. *)
Theorem number_round_trip (n : N) (topic : string) :
  n <= 2 ^ 53 ->
  Number.parseInt (Number.to_string (Fin n)) = Fin n /\
  Number.parseInt (paddedNumber (Fin n)) = Fin n /\
  match_exercise (fullExerciseName (Fin n) topic) = Some (paddedNumber (Fin n)) /\
  entry_number (fullExerciseName (Fin n) topic) = Fin n.
Proof.
  intros B.
  destruct (numeral_spec n) as (A & V & L1 & L2 & _).
  destruct (paddedNumber_digits n B) as (PA & PV & PL).
  assert (paddedNumber (Fin n) <> "") as PN
    by (intros E; rewrite E in PL; cbn in PL; lia).
  split; [|split; [|split]].
  - rewrite (to_string_safe n B).
    rewrite parseInt_digits, V, (round_safe n B); [reflexivity|assumption|].
    intros E. rewrite E in L1, L2. cbn in L1, L2.
    destruct (N.lt_ge_cases n 10) as [L|L]; [specialize (L1 L)|specialize (L2 L)];
      lia.
  - rewrite parseInt_digits, PV, (round_safe n B); auto.
  - apply match_exercise_complete. split; [assumption|split; [assumption|]].
    now exists topic.
  - rewrite entry_number_Fin. f_equal.
    rewrite (proj2 (seq_value_fullExerciseName n topic B)).
    now apply round_safe.
Qed.

Lemma number_round_trip_witness :
  6 <= 2 ^ 53 /\
  entry_number (fullExerciseName (Fin 6) "2-way-binding") = Fin 6.
Proof.
  assert (6 <= 2 ^ 53) as B by (vm_compute; discriminate).
  split; [exact B|].
  exact (proj2 (proj2 (proj2 (number_round_trip 6 "2-way-binding" B)))).
Defined.

(** X4. The allocation only grows with the listing: when every entry of one
    listing is in another, the second allocates at least as high a number;
    listings with the same entries, in any order and with any repetition,
    allocate the same number. *)
Theorem nextNumber_monotone (entries entries' : list string) :
  incl entries entries' ->
  (exists n n',
      nextNumber (Some entries) = Fin n /\
      nextNumber (Some entries') = Fin n' /\ n <= n') /\
  (incl entries' entries ->
   nextNumber (Some entries) = nextNumber (Some entries')).
Proof.
  intros H.
  assert (forall a b, incl a b ->
            list_max (candidates a) <= list_max (candidates b)) as Mono.
  { intros a b I. apply list_max_incl. intros v Hv.
    apply candidates_in in Hv as (d & Hd & C).
    apply candidates_in. exists d. split; [now apply I|assumption]. }
  rewrite !nextNumber_closed. split.
  - exists (next_of (list_max (candidates entries))),
      (next_of (list_max (candidates entries'))).
    split; [reflexivity|]. split; [reflexivity|].
    apply next_of_mono, Mono, H.
  - intros H'. do 2 f_equal.
    pose proof (Mono _ _ H). pose proof (Mono _ _ H'). lia.
Qed.

Lemma nextNumber_monotone_witness :
  incl ["exercise-02-forms"; "notes.txt"]
       ["notes.txt"; "exercise-07-pipes"; "exercise-02-forms"] /\
  exists n n',
    nextNumber (Some ["exercise-02-forms"; "notes.txt"]) = Fin n /\
    nextNumber (Some ["notes.txt"; "exercise-07-pipes"; "exercise-02-forms"])
    = Fin n' /\ n <= n'.
Proof.
  assert (incl ["exercise-02-forms"; "notes.txt"]
               ["notes.txt"; "exercise-07-pipes"; "exercise-02-forms"]) as H.
  { intros d [<-|[<-|[]]]; cbn; auto. }
  split; [exact H|].
  exact (proj1 (nextNumber_monotone _ _ H)).
Defined.

Lemma pow10_ge_1000 (k : nat) : (3 <= k)%nat -> 1000 <= 10 ^ N.of_nat k.
Proof.
  intros L. change 1000 with (10 ^ 3).
  apply N.pow_le_mono_r; lia.
Qed.

Lemma numeral_length_3 (n : N) :
  100 <= n -> (3 <= String.length (Decimal.numeral n))%nat.
Proof.
  intros L. destruct (numeral_spec n) as (A & V & _).
  pose proof (value_bound _ A) as B. rewrite V in B.
  destruct (Nat.le_gt_cases 3 (String.length (Decimal.numeral n)))
    as [|G]; [assumption|exfalso].
  assert (10 ^ N.of_nat (String.length (Decimal.numeral n)) <= 10 ^ 2) as U
    by (apply N.pow_le_mono_r; lia).
  change (10 ^ 2) with 100 in U. lia.
Qed.

(** X5. With ports up to 2^53, the port is written [42] followed by the
    padded number, the convention of the examples in the script, exactly
    for the sequence numbers below 100. *)
Theorem port_convention (n : N) :
  4200 + n <= 2 ^ 53 ->
  (Number.to_string (port (Fin n)) = "42" ++ paddedNumber (Fin n)
   <-> n < 100) /\
  Number.to_string (port (Fin 100)) = "4300".
Proof.
  intros B. split; [|now vm_compute]. split.
  - intros E. destruct (N.lt_ge_cases n 100) as [L|L]; [assumption|exfalso].
    assert (n <= 2 ^ 53) as Bn by lia.
    rewrite (port_safe n B), (to_string_safe _ B) in E.
    rewrite (paddedNumber_large n) in E by lia.
    apply (f_equal (Decimal.value_from 0)) in E.
    destruct (numeral_spec (4200 + n)) as (_ & V & _).
    destruct (numeral_spec n) as (_ & Vn & _).
    rewrite V, value_from_app, value_from_acc, Vn in E.
    change (Decimal.value_from 0 "42") with 42 in E.
    pose proof (pow10_ge_1000 _ (numeral_length_3 n L)). lia.
  - intros H.
    assert (forallb
              (fun k => String.eqb (Number.to_string (port (Fin k)))
                          ("42" ++ paddedNumber (Fin k)))
              (map N.of_nat (seq 0 100)) = true) as All
      by (vm_compute; reflexivity).
    rewrite forallb_forall in All. apply String.eqb_eq, All.
    apply in_map_iff. exists (N.to_nat n). split; [apply N2Nat.id|].
    apply in_seq. lia.
Qed.

Lemma port_convention_witness :
  4200 + 42 <= 2 ^ 53 /\
  Number.to_string (port (Fin 42)) = "42" ++ paddedNumber (Fin 42).
Proof.
  assert (4200 + 42 <= 2 ^ 53) as B by (vm_compute; discriminate).
  split; [exact B|].
  apply (proj1 (port_convention 42 B)). reflexivity.
Defined.

(** ** Whole runs *)

Lemma run_finish (dirname : string)
    (generator : string -> FileSystem -> FileSystem * option string)
    (writer : string -> string -> FileSystem -> FileSystem + string)
    (toUpperCase : string -> string)
    (arg : option string) (f : FileSystem) :
  run dirname generator writer toUpperCase arg f
  = finish (script dirname generator writer toUpperCase arg (mkState f [])).
Proof. reflexivity. Qed.

(** A run with a topic: the allocation, the two announcements, then the
    guarded stages. *)
Lemma run_main (dirname : string)
    (generator : string -> FileSystem -> FileSystem * option string)
    (writer : string -> string -> FileSystem -> FileSystem + string)
    (toUpperCase : string -> string)
    (c : ascii) (rest : string) (f : FileSystem) :
  run dirname generator writer toUpperCase (Some (String c rest)) f
  = finish
      (create dirname generator writer toUpperCase (nextNumber (projects f))
         (String c rest)
         (mkState f
            (allocation_events dirname f ++
             [Log (JSString.LF ++ "🚀 Creating new exercise: "
                     ++ fullExerciseName (nextNumber (projects f)) (String c rest));
              Log ("📍 Port: "
                     ++ Number.to_string (port (nextNumber (projects f)))
                     ++ JSString.LF)]))).
Proof.
  rewrite run_finish.
  change (script dirname generator writer toUpperCase (Some (String c rest)))
    with (main dirname generator writer toUpperCase (String c rest)).
  unfold main. unfold bind at 1. rewrite allocate_result.
  cbn [fs events app].
  unfold bind, console_log, emit. cbn [fs events].
  rewrite <- !app_assoc. reflexivity.
Qed.

Ltac run_steps :=
  unfold create, try_catch, execSync, update_manifest, read_packageJson,
    write_packageJson, write_README, summary, console_log, console_error,
    process_exit, bind, emit, get_fs, put_fs, throw, ret;
  cbn [fs events projects package_json readmes scripts other_members].

(** The manifest stage either throws or writes. *)
Lemma manifest_cases (dirname : string) (n : number) (exerciseName : string)
    (m : manifest_file) :
  (exists msg, manifest_failure dirname n m = Some msg /\
               written_manifest n exerciseName m = None) \/
  (exists content, manifest_failure dirname n m = None /\
                   written_manifest n exerciseName m = Some content).
Proof.
  destruct m as [|bad|[[members|] others]|[[| |text|elements] others| |]];
    cbn; eauto.
Qed.

Lemma create_generator_failed (dirname : string)
    (generator : string -> FileSystem -> FileSystem * option string)
    (writer : string -> string -> FileSystem -> FileSystem + string)
    (toUpperCase : string -> string)
    (n : number) (exerciseName msg : string) (f f' : FileSystem)
    (es : list event) :
  generator (generate_command (fullExerciseName n exerciseName)) f
  = (f', Some msg) ->
  create dirname generator writer toUpperCase n exerciseName (mkState f es)
  = (Exit 1,
     mkState f'
       (es ++ [Log "Step 1: Generating Angular application...";
               ExecSync (generate_command (fullExerciseName n exerciseName));
               Error (failure_line msg);
               ProcessExit 1])).
Proof.
  intros G. run_steps. rewrite G.
  cbn [fs events]. rewrite <- !app_assoc. reflexivity.
Qed.

Lemma create_manifest_failed (dirname : string)
    (generator : string -> FileSystem -> FileSystem * option string)
    (writer : string -> string -> FileSystem -> FileSystem + string)
    (toUpperCase : string -> string)
    (n : number) (exerciseName msg : string) (f f' : FileSystem)
    (es : list event) :
  generator (generate_command (fullExerciseName n exerciseName)) f
  = (f', None) ->
  manifest_failure dirname n (package_json f') = Some msg ->
  create dirname generator writer toUpperCase n exerciseName (mkState f es)
  = (Exit 1,
     mkState f'
       (es ++ [Log "Step 1: Generating Angular application...";
               ExecSync (generate_command (fullExerciseName n exerciseName));
               Log (JSString.LF ++ "Step 2: Updating package.json...");
               ReadFileSync (packageJsonPath dirname);
               Error (failure_line msg);
               ProcessExit 1])).
Proof.
  intros G M. run_steps. rewrite G. cbn [fs events].
  unfold manifest_failure in M.
  destruct (package_json f')
    as [|bad|[[members|] others]|[[| |text|elements] others| |]];
    cbn [fs events scripts]; try discriminate;
    injection M as <-; rewrite <- !app_assoc; reflexivity.
Qed.

Lemma create_readme_failed (dirname : string)
    (generator : string -> FileSystem -> FileSystem * option string)
    (writer : string -> string -> FileSystem -> FileSystem + string)
    (toUpperCase : string -> string)
    (n : number) (exerciseName msg : string) (f f' : FileSystem)
    (content : PackageJson) (es : list event) :
  generator (generate_command (fullExerciseName n exerciseName)) f
  = (f', None) ->
  written_manifest n exerciseName (package_json f') = Some content ->
  has_dir (fullExerciseName n exerciseName) (projects f') = false ->
  writer (readme_path dirname (fullExerciseName n exerciseName))
    (exerciseReadme toUpperCase n exerciseName)
    (mkFileSystem (projects f') (Json content) (readmes f'))
  = inr msg ->
  create dirname generator writer toUpperCase n exerciseName (mkState f es)
  = (Exit 1,
     mkState (mkFileSystem (projects f') (Json content) (readmes f'))
       (es ++ [Log "Step 1: Generating Angular application...";
               ExecSync (generate_command (fullExerciseName n exerciseName));
               Log (JSString.LF ++ "Step 2: Updating package.json...");
               ReadFileSync (packageJsonPath dirname);
               WriteFileSync (packageJsonPath dirname);
               Log "Step 3: Creating exercise README...";
               WriteFileSync (readme_path dirname (fullExerciseName n exerciseName));
               Error (failure_line msg);
               ProcessExit 1])).
Proof.
  intros G W D Wr. run_steps. rewrite G. cbn [fs events].
  unfold written_manifest in W. unfold readme_path in Wr.
  destruct (package_json f')
    as [|bad|[[members|] others]|[[| |text|elements] others| |]];
    try discriminate; injection W as <-;
    cbn [fs events projects package_json readmes scripts other_members];
    rewrite D;
      cbn [fs events projects package_json readmes]; rewrite Wr;
    cbn [fs events]; rewrite <- !app_assoc; reflexivity.
Qed.

Lemma create_readme_elsewhere (dirname : string)
    (generator : string -> FileSystem -> FileSystem * option string)
    (writer : string -> string -> FileSystem -> FileSystem + string)
    (toUpperCase : string -> string)
    (n : number) (exerciseName : string) (f f' f'' : FileSystem)
    (content : PackageJson) (es : list event) :
  generator (generate_command (fullExerciseName n exerciseName)) f
  = (f', None) ->
  written_manifest n exerciseName (package_json f') = Some content ->
  has_dir (fullExerciseName n exerciseName) (projects f') = false ->
  writer (readme_path dirname (fullExerciseName n exerciseName))
    (exerciseReadme toUpperCase n exerciseName)
    (mkFileSystem (projects f') (Json content) (readmes f'))
  = inl f'' ->
  exists logs,
    Forall (fun e => exists line, e = Log line) logs /\
    create dirname generator writer toUpperCase n exerciseName (mkState f es)
    = (Normal tt,
       mkState (mkFileSystem (projects f'') (Json content) (readmes f''))
         (es ++ [Log "Step 1: Generating Angular application...";
                 ExecSync (generate_command (fullExerciseName n exerciseName));
                 Log (JSString.LF ++ "Step 2: Updating package.json...");
                 ReadFileSync (packageJsonPath dirname);
                 WriteFileSync (packageJsonPath dirname);
                 Log "Step 3: Creating exercise README...";
                 WriteFileSync
                   (readme_path dirname (fullExerciseName n exerciseName))]
             ++ logs)).
Proof.
  intros G W D Wr. run_steps. rewrite G. cbn [fs events].
  unfold written_manifest in W. unfold readme_path in Wr.
  eexists. split;
    [|destruct (package_json f')
        as [|bad|[[members|] others]|[[| |text|elements] others| |]];
      try discriminate; injection W as <-;
      cbn [fs events projects package_json readmes scripts other_members];
      rewrite D;
      cbn [fs events projects package_json readmes]; rewrite Wr;
      cbn [fs events projects package_json readmes];
      rewrite <- !app_assoc; cbn [app]; reflexivity].
  repeat constructor; eexists; reflexivity.
Qed.

Lemma create_succeeded (dirname : string)
    (generator : string -> FileSystem -> FileSystem * option string)
    (writer : string -> string -> FileSystem -> FileSystem + string)
    (toUpperCase : string -> string)
    (n : number) (exerciseName : string) (f f' : FileSystem)
    (content : PackageJson) (es : list event) :
  generator (generate_command (fullExerciseName n exerciseName)) f
  = (f', None) ->
  written_manifest n exerciseName (package_json f') = Some content ->
  has_dir (fullExerciseName n exerciseName) (projects f') = true ->
  exists logs,
    Forall (fun e => exists line, e = Log line) logs /\
    create dirname generator writer toUpperCase n exerciseName (mkState f es)
    = (Normal tt,
       mkState (completed_fs toUpperCase n exerciseName f' content)
         (es ++ [Log "Step 1: Generating Angular application...";
                 ExecSync (generate_command (fullExerciseName n exerciseName));
                 Log (JSString.LF ++ "Step 2: Updating package.json...");
                 ReadFileSync (packageJsonPath dirname);
                 WriteFileSync (packageJsonPath dirname);
                 Log "Step 3: Creating exercise README...";
                 WriteFileSync
                   (readme_path dirname (fullExerciseName n exerciseName))]
             ++ logs)).
Proof.
  intros G W D. run_steps. rewrite G. cbn [fs events].
  unfold written_manifest in W.
  eexists. split;
    [|destruct (package_json f')
        as [|bad|[[members|] others]|[[| |text|elements] others| |]];
      try discriminate; injection W as <-;
      cbn [fs events projects package_json readmes scripts other_members];
      rewrite D;
      cbn [fs events projects package_json readmes];
      unfold completed_fs; rewrite <- !app_assoc; cbn [app]; reflexivity].
  repeat constructor; eexists; reflexivity.
Qed.

(** ** The sort step on any object *)

Lemma get_insert_index_same (k v : string) (o : JSObject.t) :
  ~ In k (JSObject.keys o) ->
  JSObject.get k (JSObject.insert_index k v o) = Some v.
Proof.
  induction o as [|[k1 v1] o IH]; intros NI; cbn [JSObject.insert_index].
  - cbn. now rewrite String.eqb_refl.
  - cbn [JSObject.keys map fst In] in NI.
    destruct (JSObject.is_array_index k1
              && (JSObject.index_value k1 <? JSObject.index_value k));
      cbn [JSObject.get].
    + destruct (String.eqb k k1) eqn:E.
      * apply String.eqb_eq in E. symmetry in E. tauto.
      * apply IH. tauto.
    + now rewrite String.eqb_refl.
Qed.

Lemma get_insert_index_other (k k' v : string) (o : JSObject.t) :
  k' <> k ->
  JSObject.get k' (JSObject.insert_index k v o) = JSObject.get k' o.
Proof.
  intros NE. apply String.eqb_neq in NE.
  induction o as [|[k1 v1] o IH]; cbn [JSObject.insert_index].
  - cbn. now rewrite NE.
  - destruct (JSObject.is_array_index k1
              && (JSObject.index_value k1 <? JSObject.index_value k));
      cbn [JSObject.get].
    + now rewrite IH.
    + now rewrite NE.
Qed.

Lemma get_define_same (k v : string) (o : JSObject.t) :
  JSObject.get k (JSObject.define k v o) = Some v.
Proof.
  unfold JSObject.define. destruct (JSObject.has_own k o) eqn:H.
  - apply get_replace_same. now apply has_own_In.
  - apply has_own_not_In in H. destruct (JSObject.is_array_index k).
    + now apply get_insert_index_same.
    + now apply get_app_last_same.
Qed.

Lemma get_define_other (k k' v : string) (o : JSObject.t) :
  k' <> k -> JSObject.get k' (JSObject.define k v o) = JSObject.get k' o.
Proof.
  intros NE. unfold JSObject.define. destruct (JSObject.has_own k o).
  - now apply get_replace_other.
  - destruct (JSObject.is_array_index k).
    + now apply get_insert_index_other.
    + now apply get_app_last_other.
Qed.

Lemma keys_define_iff (k k' v : string) (o : JSObject.t) :
  In k' (JSObject.keys (JSObject.define k v o))
  <-> k' = k \/ In k' (JSObject.keys o).
Proof.
  split; [apply keys_define|].
  intros H.
  destruct (in_dec string_dec k' (JSObject.keys (JSObject.define k v o)))
    as [Y|N]; [exact Y|exfalso].
  apply get_None in N.
  destruct (String.eqb k' k) eqn:E.
  - apply String.eqb_eq in E. subst. rewrite get_define_same in N. discriminate.
  - apply String.eqb_neq in E. rewrite (get_define_other k k' v o E) in N.
    apply get_None in N. tauto.
Qed.

Lemma named_keys_insert_index (k v : string) (o : JSObject.t) :
  named_key k = false ->
  filter named_key (JSObject.keys (JSObject.insert_index k v o))
  = filter named_key (JSObject.keys o).
Proof.
  intros N. induction o as [|[k1 v1] o IH]; cbn [JSObject.insert_index].
  - cbn. now rewrite N.
  - destruct (JSObject.is_array_index k1
              && (JSObject.index_value k1 <? JSObject.index_value k)).
    + unfold JSObject.keys in *. cbn [map fst filter]. now rewrite IH.
    + unfold JSObject.keys. cbn [map fst filter]. now rewrite N.
Qed.

Lemma named_keys_define (k v : string) (o : JSObject.t) :
  ~ In k (JSObject.keys o) ->
  filter named_key (JSObject.keys (JSObject.define k v o))
  = (filter named_key (JSObject.keys o)
       ++ (if named_key k then [k] else []))%list.
Proof.
  intros NI. unfold JSObject.define.
  apply has_own_not_In in NI. rewrite NI.
  unfold named_key at 3.
  destruct (JSObject.is_array_index k) eqn:I; cbn [negb].
  - rewrite app_nil_r. apply named_keys_insert_index.
    unfold named_key. now rewrite I.
  - assert (named_key k = true) as N by (unfold named_key; now rewrite I).
    rewrite keys_app, filter_app. unfold JSObject.keys at 2.
    cbn [map fst filter]. now rewrite N.
Qed.

Lemma strongly_sorted_filter {A : Type} (R : A -> A -> Prop)
    (f : A -> bool) (l : list A) :
  StronglySorted R l -> StronglySorted R (filter f l).
Proof.
  induction 1 as [|x l S IH F]; cbn [filter]; [constructor|].
  destruct (f x); [|assumption].
  constructor; [assumption|].
  apply Forall_forall. intros y Hy. apply filter_In in Hy as [Hy _].
  rewrite Forall_forall in F. now apply F.
Qed.

(** The copy loop of lines 98-100 over distinct own keys of [scripts] that
    the target does not have yet. *)
Lemma copy_general (scripts : JSObject.t) :
  forall (ks : list string) (acc : JSObject.t),
    NoDup ks ->
    (forall k, In k ks ->
               In k (JSObject.keys scripts) /\ ~ In k (JSObject.keys acc)) ->
    ~ In "__proto__" (JSObject.keys acc) ->
    NoDup (JSObject.keys acc) -> index_ordered acc ->
    let r :=
      fold_left
        (fun sorted key =>
           match JSObject.get key scripts with
           | Some v => JSObject.set key v sorted
           | None => sorted
           end) ks acc in
    NoDup (JSObject.keys r) /\ index_ordered r /\
    ~ In "__proto__" (JSObject.keys r) /\
    (forall k, In k (JSObject.keys r)
               <-> In k (JSObject.keys acc) \/ (In k ks /\ k <> "__proto__")) /\
    (forall k, JSObject.get k r
               = if existsb (String.eqb k) ks && negb (String.eqb k "__proto__")
                 then JSObject.get k scripts else JSObject.get k acc) /\
    filter named_key (JSObject.keys r)
    = (filter named_key (JSObject.keys acc)
         ++ filter (fun k => named_key k && negb (String.eqb k "__proto__")) ks)%list.
Proof.
  induction ks as [|a ks IH]; intros acc ND H NP NDa Ord; cbn [fold_left].
  - cbv zeta. split; [|split; [|split; [|split; [|split]]]]; auto.
    + intros k. split; [now left|intros [?|[[] _]]; assumption].
    + cbn [filter]. now rewrite app_nil_r.
  - inversion ND as [|? ? NIa ND']; subst.
    destruct (H a (or_introl eq_refl)) as [Ia Fa].
    destruct (JSObject.get a scripts) as [v|] eqn:G;
      [|apply get_None in G; contradiction].
    assert (JSObject.set a v acc
            = if String.eqb a "__proto__" then acc else JSObject.define a v acc)
      as S.
    { unfold JSObject.set. apply has_own_not_In in Fa. now rewrite Fa. }
    rewrite S. clear S.
    destruct (String.eqb a "__proto__") eqn:P.
    + apply String.eqb_eq in P. subst a.
      destruct (IH acc ND' (fun k Hk => H k (or_intror Hk)) NP NDa Ord)
        as (R1 & R2 & R3 & R4 & R5 & R6).
      cbv zeta. split; [|split; [|split; [|split; [|split]]]]; auto.
      * intros k. split.
        -- intros Hk. apply R4 in Hk as [Hk|[Hk N]]; [now left|].
           right. split; [now right|assumption].
        -- intros [Hk|[[<-|Hk] N]]; apply R4;
             [now left|congruence|now right].
      * intros k. rewrite R5. cbn [existsb].
        destruct (String.eqb k "__proto__") eqn:E; cbn [negb];
          [now rewrite !andb_false_r|reflexivity].
    + apply String.eqb_neq in P.
      assert (forall k, In k ks ->
                In k (JSObject.keys scripts) /\
                ~ In k (JSObject.keys (JSObject.define a v acc))) as H'.
      { intros k Hk. destruct (H k (or_intror Hk)) as [I F].
        split; [assumption|]. rewrite keys_define_iff.
        intros [->|C]; tauto. }
      assert (~ In "__proto__" (JSObject.keys (JSObject.define a v acc))) as NP'.
      { rewrite keys_define_iff. intros [C|C]; [congruence|tauto]. }
      destruct (IH (JSObject.define a v acc) ND' H' NP'
                  (define_NoDup a v acc NDa) (index_ordered_define a v acc Ord))
        as (R1 & R2 & R3 & R4 & R5 & R6).
      cbv zeta. split; [|split; [|split; [|split; [|split]]]]; auto.
      * intros k. split.
        -- intros Hk. apply R4 in Hk as [Hk|[Hk N]].
           ++ apply keys_define_iff in Hk as [->|Hk]; [right|now left].
              split; [now left|assumption].
           ++ right. split; [now right|assumption].
        -- intros [Hk|[[<-|Hk] N]]; apply R4.
           ++ left. apply keys_define_iff. now right.
           ++ left. apply keys_define_iff. now left.
           ++ now right.
      * intros k. rewrite R5. cbn [existsb].
        destruct (String.eqb k a) eqn:E; cbn [orb].
        -- apply String.eqb_eq in E. subst k.
           apply String.eqb_neq in P. rewrite P. cbn [negb].
           rewrite andb_true_r, get_define_same, G.
           now destruct (existsb (String.eqb a) ks).
        -- apply String.eqb_neq in E. now rewrite (get_define_other a k v acc E).
      * rewrite R6, (named_keys_define a v acc Fa), <- app_assoc.
        cbn [filter]. apply String.eqb_neq in P. rewrite P. cbn [negb].
        rewrite andb_true_r. now destruct (named_key a).
Qed.

(** What the sort step leaves of an object of distinct keys. *)
Lemma sortedScripts_general (o : JSObject.t) :
  NoDup (JSObject.keys o) ->
  NoDup (JSObject.keys (sortedScripts o)) /\
  index_ordered (sortedScripts o) /\
  ~ In "__proto__" (JSObject.keys (sortedScripts o)) /\
  (forall k, In k (JSObject.keys (sortedScripts o))
             <-> In k (JSObject.keys o) /\ k <> "__proto__") /\
  (forall k, k <> "__proto__" ->
             JSObject.get k (sortedScripts o) = JSObject.get k o) /\
  StronglySorted key_le (filter named_key (JSObject.keys (sortedScripts o))).
Proof.
  intros ND.
  pose proof (sort_perm (JSObject.keys o)) as Perm.
  destruct (copy_general o (JSObject.sort (JSObject.keys o)) JSObject.empty)
    as (R1 & R2 & R3 & R4 & R5 & R6).
  - apply (Permutation_NoDup (Permutation_sym Perm) ND).
  - intros k Hk. split; [now apply (Permutation_in _ Perm)|intros []].
  - intros [].
  - constructor.
  - apply index_ordered_nil.
  - fold (sortedScripts o) in *.
    split; [|split; [|split; [|split; [|split]]]]; auto.
    + intros k. split.
      * intros Hk. apply R4 in Hk as [[]|[Hk N]].
        split; [now apply (Permutation_in _ Perm)|assumption].
      * intros [Hk N]. apply R4. right.
        split; [now apply (Permutation_in _ (Permutation_sym Perm))|assumption].
    + intros k N. rewrite R5. apply String.eqb_neq in N. rewrite N.
      cbn [negb]. rewrite andb_true_r.
      destruct (existsb (String.eqb k) (JSObject.sort (JSObject.keys o))) eqn:X;
        [reflexivity|].
      cbn. symmetry. apply get_None. intros Hk.
      apply (Permutation_in _ (Permutation_sym Perm)) in Hk.
      assert (existsb (String.eqb k) (JSObject.sort (JSObject.keys o)) = true)
        by (apply existsb_exists; exists k; split;
            [assumption|apply String.eqb_refl]).
      congruence.
    + rewrite R6. cbn [JSObject.keys JSObject.empty map filter app].
      apply strongly_sorted_filter, sort_sorted.
Qed.

Lemma filter_none {A : Type} (f : A -> bool) (l : list A) :
  (forall x, In x l -> f x = false) -> filter f l = [].
Proof.
  induction l as [|x l IH]; intros H; [reflexivity|].
  cbn [filter]. rewrite (H x (or_introl eq_refl)).
  apply IH. intros y Hy. apply H. now right.
Qed.

(** In an object in the order of [Object.keys] the array indices come
    first, by ascending value, then the named keys. *)
Lemma index_ordered_split (o : JSObject.t) :
  index_ordered o ->
  JSObject.keys o
  = (filter JSObject.is_array_index (JSObject.keys o)
       ++ filter named_key (JSObject.keys o))%list /\
  StronglySorted
    (fun a b => JSObject.index_value a < JSObject.index_value b)
    (filter JSObject.is_array_index (JSObject.keys o)).
Proof.
  induction o as [|[k0 v0] o IH]; intros H.
  - split; [reflexivity|constructor].
  - apply index_ordered_cons in H as [H1 H2].
    destruct (IH H1) as [E S]. unfold JSObject.keys in *.
    cbn [map fst filter]. unfold named_key at 1.
    destruct (JSObject.is_array_index k0) eqn:I; cbn [negb].
    + split; [cbn [app]; now rewrite <- E|].
      constructor; [assumption|]. apply Forall_forall.
      intros y Hy. apply filter_In in Hy as [Hy Iy].
      now apply H2.
    + assert (filter JSObject.is_array_index (map fst o) = []) as N.
      { apply filter_none. intros x Hx.
        destruct (JSObject.is_array_index x) eqn:Ix; [|reflexivity].
        destruct (H2 x Hx Ix). congruence. }
      rewrite N in *. cbn [app] in *. split; [now rewrite <- E|constructor].
Qed.

Lemma sorted_unique {A : Type} (R : A -> A -> Prop) :
  (forall x y, R x y -> R y x -> x = y) ->
  forall l1 l2 : list A,
    NoDup l1 -> NoDup l2 ->
    StronglySorted R l1 -> StronglySorted R l2 ->
    (forall x, In x l1 <-> In x l2) -> l1 = l2.
Proof.
  intros Anti. induction l1 as [|x l1 IH]; intros [|y l2] N1 N2 S1 S2 E.
  - reflexivity.
  - destruct (proj2 (E y) (or_introl eq_refl)).
  - destruct (proj1 (E x) (or_introl eq_refl)).
  - inversion N1 as [|? ? X1 N1']; inversion N2 as [|? ? X2 N2']; subst.
    inversion S1 as [|? ? S1' F1]; inversion S2 as [|? ? S2' F2]; subst.
    rewrite Forall_forall in F1, F2.
    assert (x = y) as ->.
    { destruct (proj1 (E x) (or_introl eq_refl)) as [->|Hx]; [reflexivity|].
      destruct (proj2 (E y) (or_introl eq_refl)) as [->|Hy]; [reflexivity|].
      apply Anti; [now apply F1|now apply F2]. }
    f_equal. apply IH; auto. intros z. split; intros Hz.
    + destruct (proj1 (E z) (or_intror Hz)) as [->|?]; [contradiction|assumption].
    + destruct (proj2 (E z) (or_intror Hz)) as [->|?]; [contradiction|assumption].
Qed.

Lemma leb_antisym (a b : string) :
  JSString.leb a b = true -> JSString.leb b a = true -> a = b.
Proof.
  revert b; induction a as [|x a IH]; intros [|y b]; try easy.
  cbn [JSString.leb]. cbv zeta.
  destruct (N_of_ascii x <? N_of_ascii y) eqn:XY;
    destruct (N_of_ascii y <? N_of_ascii x) eqn:YX;
    try discriminate;
    rewrite ?N.ltb_lt, ?N.ltb_ge in *; try lia.
  intros L1 L2. f_equal; [|now apply IH].
  rewrite <- (ascii_N_embedding x), <- (ascii_N_embedding y).
  f_equal. lia.
Qed.

Lemma object_ext (a : JSObject.t) :
  forall b : JSObject.t,
    JSObject.keys a = JSObject.keys b -> NoDup (JSObject.keys a) ->
    (forall k, JSObject.get k a = JSObject.get k b) -> a = b.
Proof.
  induction a as [|[k v] a IH]; intros [|[k' v'] b] K ND G;
    try discriminate; [reflexivity|].
  unfold JSObject.keys in *. cbn [map fst] in K. injection K as <- K.
  inversion ND as [|? ? NI ND']; subst.
  pose proof (G k) as Gk. cbn [JSObject.get] in Gk.
  rewrite String.eqb_refl in Gk. injection Gk as <-.
  f_equal. apply IH; auto. intros k1.
  destruct (String.eqb k1 k) eqn:E.
  - apply String.eqb_eq in E. subst k1.
    transitivity (@None string); [|symmetry]; apply get_None;
      unfold JSObject.keys; [assumption|now rewrite <- K].
  - specialize (G k1). cbn [JSObject.get] in G. now rewrite E in G.
Qed.

(** Two objects in the order of [Object.keys], with sorted named keys, the
    same keys and the same values are the same object. *)
Lemma canonical_unique (a b : JSObject.t) :
  NoDup (JSObject.keys a) -> NoDup (JSObject.keys b) ->
  index_ordered a -> index_ordered b ->
  StronglySorted key_le (filter named_key (JSObject.keys a)) ->
  StronglySorted key_le (filter named_key (JSObject.keys b)) ->
  (forall k, In k (JSObject.keys a) <-> In k (JSObject.keys b)) ->
  (forall k, JSObject.get k a = JSObject.get k b) ->
  a = b.
Proof.
  intros Na Nb Oa Ob Sa Sb K G.
  destruct (index_ordered_split a Oa) as [Ea Ia].
  destruct (index_ordered_split b Ob) as [Eb Ib].
  apply object_ext; auto. rewrite Ea, Eb. f_equal.
  - apply (sorted_unique
             (fun x y => JSObject.index_value x < JSObject.index_value y));
      auto using NoDup_filter.
    + intros; lia.
    + intros k. rewrite !filter_In, K. tauto.
  - apply (sorted_unique key_le); auto using NoDup_filter.
    + apply leb_antisym.
    + intros k. rewrite !filter_In, K. tauto.
Qed.

Lemma sortedScripts_idem (o : JSObject.t) :
  NoDup (JSObject.keys o) ->
  sortedScripts (sortedScripts o) = sortedScripts o.
Proof.
  intros ND.
  destruct (sortedScripts_general o ND) as (N1 & O1 & P1 & K1 & G1 & S1).
  destruct (sortedScripts_general (sortedScripts o) N1)
    as (N2 & O2 & P2 & K2 & G2 & S2).
  apply canonical_unique; auto.
  - intros k. rewrite K2. split; [tauto|].
    intros H. split; [assumption|]. intros ->. contradiction.
  - intros k. destruct (String.eqb k "__proto__") eqn:E.
    + apply String.eqb_eq in E. subst.
      transitivity (@None string); [|symmetry]; now apply get_None.
    + apply String.eqb_neq in E. now apply G2.
Qed.

Lemma replace_same (k v : string) (o : JSObject.t) :
  JSObject.get k o = Some v -> JSObject.replace k v o = o.
Proof.
  induction o as [|[k1 v1] o IH]; [reflexivity|].
  cbn [JSObject.get JSObject.replace].
  destruct (String.eqb k k1); [now intros [= ->]|].
  intros H. now rewrite (IH H).
Qed.

(** ** X6 to X10: the manifest update on any manifest *)

(** X6. On the scripts of any manifest the sort step adds no key, changes
    no value and drops nothing but a script named [__proto__]. *)
Theorem sort_step_preserves (members : list (string * string)) :
  (forall k,
      In k (JSObject.keys (sortedScripts (JSObject.JSON_parse members)))
      <-> In k (JSObject.keys (JSObject.JSON_parse members))
          /\ k <> "__proto__") /\
  NoDup (JSObject.keys (sortedScripts (JSObject.JSON_parse members))) /\
  (forall k, k <> "__proto__" ->
      JSObject.get k (sortedScripts (JSObject.JSON_parse members))
      = JSObject.get k (JSObject.JSON_parse members)).
Proof.
  destruct (sortedScripts_general _ (JSON_parse_NoDup members))
    as (N & _ & _ & K & G & _).
  auto.
Qed.

(** X7. After the sort step the keys stand as [Object.keys] lists them:
    first the array indices by ascending numeric value, then all other
    keys in ascending order of code units. *)
Theorem sort_step_order (members : list (string * string)) :
  JSObject.keys (sortedScripts (JSObject.JSON_parse members))
  = (filter JSObject.is_array_index
       (JSObject.keys (sortedScripts (JSObject.JSON_parse members)))
     ++ filter named_key
          (JSObject.keys (sortedScripts (JSObject.JSON_parse members))))%list /\
  StronglySorted
    (fun a b => JSObject.index_value a < JSObject.index_value b)
    (filter JSObject.is_array_index
       (JSObject.keys (sortedScripts (JSObject.JSON_parse members)))) /\
  StronglySorted key_le
    (filter named_key
       (JSObject.keys (sortedScripts (JSObject.JSON_parse members)))).
Proof.
  destruct (sortedScripts_general _ (JSON_parse_NoDup members))
    as (_ & O & _ & _ & _ & S).
  destruct (index_ordered_split _ O) as [E I]. auto.
Qed.

(** X8. Running the sort step on its own result changes nothing, for the
    scripts of any manifest. *)
Theorem sort_step_idempotent (members : list (string * string)) :
  sortedScripts (sortedScripts (JSObject.JSON_parse members))
  = sortedScripts (JSObject.JSON_parse members).
Proof. apply sortedScripts_idem, JSON_parse_NoDup. Qed.

Lemma update_scripts_general (n : number) (exerciseName : string)
    (o : JSObject.t) :
  NoDup (JSObject.keys o) ->
  (forall k, In k (JSObject.keys (update_scripts n exerciseName o))
             <-> (In k (JSObject.keys o) \/ k = start_key n \/ k = build_key n)
                 /\ k <> "__proto__") /\
  (forall k, k <> start_key n -> k <> build_key n -> k <> "__proto__" ->
             JSObject.get k (update_scripts n exerciseName o) = JSObject.get k o) /\
  JSObject.get (start_key n) (update_scripts n exerciseName o)
  = Some (start_command n exerciseName) /\
  JSObject.get (build_key n) (update_scripts n exerciseName o)
  = Some (build_command n exerciseName).
Proof.
  intros ND.
  destruct (add_scripts_spec n exerciseName o ND) as (ND1 & K & O & S & B).
  destruct (sortedScripts_general _ ND1) as (_ & _ & _ & K1 & G1 & _).
  unfold update_scripts. split; [|split; [|split]].
  - intros k. rewrite K1, K. tauto.
  - intros k Hs Hb Hp. rewrite G1 by assumption. now apply O.
  - rewrite G1; [assumption|]. apply (start_key_plain n).
  - rewrite G1; [assumption|]. apply (build_key_plain n).
Qed.

(** X9. On any manifest the update leaves the old keys and the two new
    ones, except a key [__proto__]; every script other than these three
    keeps its value, and the two new keys hold the serve and build
    commands of the exercise. *)
Theorem update_keeps_other_scripts (n : number) (exerciseName : string)
    (members : list (string * string)) :
  (forall k,
      In k (JSObject.keys
              (update_scripts n exerciseName (JSObject.JSON_parse members)))
      <-> (In k (JSObject.keys (JSObject.JSON_parse members))
           \/ k = start_key n \/ k = build_key n)
          /\ k <> "__proto__") /\
  (forall k, k <> start_key n -> k <> build_key n -> k <> "__proto__" ->
      JSObject.get k
        (update_scripts n exerciseName (JSObject.JSON_parse members))
      = JSObject.get k (JSObject.JSON_parse members)) /\
  JSObject.get (start_key n)
    (update_scripts n exerciseName (JSObject.JSON_parse members))
  = Some (start_command n exerciseName) /\
  JSObject.get (build_key n)
    (update_scripts n exerciseName (JSObject.JSON_parse members))
  = Some (build_command n exerciseName).
Proof. apply update_scripts_general, JSON_parse_NoDup. Qed.

(** X10. Updating the scripts a second time for the same number and topic
    changes nothing: the two keys are overwritten with the values they
    have and the keys are sorted already. *)
Theorem update_twice (n : number) (exerciseName : string)
    (members : list (string * string)) :
  update_scripts n exerciseName
    (update_scripts n exerciseName (JSObject.JSON_parse members))
  = update_scripts n exerciseName (JSObject.JSON_parse members).
Proof.
  pose proof (JSON_parse_NoDup members) as ND.
  destruct (update_scripts_general n exerciseName _ ND) as (K & _ & S & B).
  destruct (add_scripts_spec n exerciseName _ ND) as (ND1 & _).
  set (u := update_scripts n exerciseName (JSObject.JSON_parse members)) in *.
  assert (add_scripts n exerciseName u = u) as A.
  { unfold add_scripts.
    assert (forall k v, JSObject.get k u = Some v -> JSObject.set k v u = u) as R.
    { intros k v G. unfold JSObject.set.
      assert (JSObject.has_own k u = true) as H.
      { apply has_own_In.
        destruct (in_dec string_dec k (JSObject.keys u)) as [Y|N];
          [exact Y|]. apply get_None in N. congruence. }
      rewrite H. now apply replace_same. }
    rewrite (R _ _ S). now apply R. }
  unfold update_scripts at 1. rewrite A. subst u. unfold update_scripts.
  now apply sortedScripts_idem.
Qed.

(** ** The outcomes of a run with a topic *)

Lemma allocation_events_facts (dirname : string) (f : FileSystem)
    (es : list event) :
  stderr (allocation_events dirname f ++ es) = stderr es /\
  filter is_side_effect (allocation_events dirname f ++ es)
  = (allocation_events dirname f ++ filter is_side_effect es)%list /\
  filter is_write (allocation_events dirname f ++ es) = filter is_write es.
Proof. unfold allocation_events. destruct (projects f); repeat split. Qed.

Lemma logs_quiet (logs : list event) :
  Forall (fun e => exists line, e = Log line) logs ->
  stderr logs = [] /\ filter is_side_effect logs = [] /\
  filter is_write logs = [].
Proof.
  induction 1 as [|e logs [line ->] _ (A & B & C)]; [repeat split|].
  cbn. unfold stderr in A. rewrite A, B, C. repeat split.
Qed.

Lemma stderr_app (a b : list event) :
  stderr (a ++ b) = (stderr a ++ stderr b)%list.
Proof. apply flat_map_app. Qed.

Lemma readme_of_written (dir text : string) (l : list (string * string)) :
  readme_of dir (write_readme dir text l) = Some text /\
  forall d, d <> dir ->
    readme_of d (write_readme dir text l) = readme_of d l.
Proof.
  unfold write_readme. cbn [readme_of]. rewrite String.eqb_refl.
  split; [reflexivity|]. intros d NE.
  assert (String.eqb dir d = false) as E
    by (apply String.eqb_neq; congruence).
  rewrite E. induction l as [|[d1 t1] l IH]; [reflexivity|].
  cbn [filter fst readme_of].
  destruct (String.eqb d1 dir) eqn:E1; cbn [negb readme_of].
  - apply String.eqb_eq in E1. subst d1. now rewrite E.
  - now rewrite IH.
Qed.

Section Runs.

Variable dirname : string.
Variable generator : string -> FileSystem -> FileSystem * option string.
Variable writer : string -> string -> FileSystem -> FileSystem + string.
Variable toUpperCase : string -> string.
Variable c : ascii.
Variable rest : string.
Variable f : FileSystem.

Let exerciseName : string := String c rest.
Let n : number := nextNumber (projects f).
Let r : Run := run dirname generator writer toUpperCase (Some exerciseName) f.
Let command : string := generate_command (fullExerciseName n exerciseName).
Let first_events : list event :=
  (allocation_events dirname f ++
   [Log (JSString.LF ++ "🚀 Creating new exercise: "
           ++ fullExerciseName (nextNumber (projects f)) (String c rest));
    Log ("📍 Port: "
           ++ Number.to_string (port (nextNumber (projects f)))
           ++ JSString.LF)])%list.

Lemma run_generator_failed (f' : FileSystem) (msg : string) :
  generator command f = (f', Some msg) ->
  exit_status r = 1 /\ run_fs r = f' /\
  stderr (run_events r) = [failure_line msg] /\
  filter is_side_effect (run_events r)
  = (allocation_events dirname f ++ [ExecSync command])%list /\
  filter is_write (run_events r) = [].
Proof.
  intros G. unfold r, command, n, exerciseName in *. rewrite run_main.
  rewrite (create_generator_failed dirname generator writer toUpperCase
             _ _ _ _ _ _ G).
  cbn [finish run_events run_fs exit_status fs events]. rewrite <- app_assoc.
  match goal with
  | |- context [(allocation_events dirname f ++ ?es)%list] =>
      destruct (allocation_events_facts dirname f es) as (A & B & C)
  end.
  rewrite A, B, C. repeat split.
Qed.

Lemma run_manifest_failed (f' : FileSystem) (msg : string) :
  generator command f = (f', None) ->
  manifest_failure dirname n (package_json f') = Some msg ->
  exit_status r = 1 /\ run_fs r = f' /\
  stderr (run_events r) = [failure_line msg] /\
  filter is_side_effect (run_events r)
  = (allocation_events dirname f
       ++ [ExecSync command; ReadFileSync (packageJsonPath dirname)])%list /\
  filter is_write (run_events r) = [].
Proof.
  intros G M. unfold r, command, n, exerciseName in *. rewrite run_main.
  rewrite (create_manifest_failed dirname generator writer toUpperCase
             _ _ _ _ _ _ G M).
  cbn [finish run_events run_fs exit_status fs events]. rewrite <- app_assoc.
  match goal with
  | |- context [(allocation_events dirname f ++ ?es)%list] =>
      destruct (allocation_events_facts dirname f es) as (A & B & C)
  end.
  rewrite A, B, C. repeat split.
Qed.

Lemma run_readme_failed (f' : FileSystem) (content : PackageJson)
    (msg : string) :
  generator command f = (f', None) ->
  written_manifest n exerciseName (package_json f') = Some content ->
  has_dir (fullExerciseName n exerciseName) (projects f') = false ->
  writer (readme_path dirname (fullExerciseName n exerciseName))
    (exerciseReadme toUpperCase n exerciseName)
    (mkFileSystem (projects f') (Json content) (readmes f'))
  = inr msg ->
  exit_status r = 1 /\
  run_fs r = mkFileSystem (projects f') (Json content) (readmes f') /\
  stderr (run_events r) = [failure_line msg] /\
  filter is_side_effect (run_events r)
  = all_side_effects dirname f exerciseName.
Proof.
  intros G W D Wr. unfold r, command, n, exerciseName in *. rewrite run_main.
  rewrite (create_readme_failed dirname generator writer toUpperCase
             _ _ _ _ _ _ _ G W D Wr).
  cbn [finish run_events run_fs exit_status fs events]. rewrite <- app_assoc.
  match goal with
  | |- context [(allocation_events dirname f ++ ?es)%list] =>
      destruct (allocation_events_facts dirname f es) as (A & B & C)
  end.
  rewrite A, B. repeat split.
Qed.

Lemma run_readme_elsewhere (f' f'' : FileSystem) (content : PackageJson) :
  generator command f = (f', None) ->
  written_manifest n exerciseName (package_json f') = Some content ->
  has_dir (fullExerciseName n exerciseName) (projects f') = false ->
  writer (readme_path dirname (fullExerciseName n exerciseName))
    (exerciseReadme toUpperCase n exerciseName)
    (mkFileSystem (projects f') (Json content) (readmes f'))
  = inl f'' ->
  exit_status r = 0 /\
  run_fs r = mkFileSystem (projects f'') (Json content) (readmes f'') /\
  stderr (run_events r) = [] /\
  filter is_side_effect (run_events r)
  = all_side_effects dirname f exerciseName.
Proof.
  intros G W D Wr. unfold r, command, n, exerciseName in *. rewrite run_main.
  destruct (create_readme_elsewhere dirname generator writer toUpperCase
              _ _ f f' f'' content first_events G W D Wr)
    as (logs & Q & E).
  unfold first_events in E. rewrite E.
  cbn [finish run_events run_fs exit_status fs events].
  destruct (logs_quiet logs Q) as (QA & QB & _).
  rewrite <- !app_assoc.
  match goal with
  | |- context [(allocation_events dirname f ++ ?es)%list] =>
      destruct (allocation_events_facts dirname f es) as (A & B & _)
  end.
  rewrite A, B. cbn [app].
  repeat split.
  - cbn. exact QA.
  - cbn [filter is_side_effect]. rewrite QB. reflexivity.
Qed.

Lemma run_succeeded (f' : FileSystem) (content : PackageJson) :
  generator command f = (f', None) ->
  written_manifest n exerciseName (package_json f') = Some content ->
  has_dir (fullExerciseName n exerciseName) (projects f') = true ->
  exit_status r = 0 /\
  run_fs r = completed_fs toUpperCase n exerciseName f' content /\
  stderr (run_events r) = [] /\
  filter is_side_effect (run_events r)
  = all_side_effects dirname f exerciseName.
Proof.
  intros G W D. unfold r, command, n, exerciseName in *. rewrite run_main.
  destruct (create_succeeded dirname generator writer toUpperCase
              _ _ f f' content first_events G W D)
    as (logs & Q & E).
  unfold first_events in E. rewrite E.
  cbn [finish run_events run_fs exit_status fs events].
  destruct (logs_quiet logs Q) as (QA & QB & _).
  rewrite <- !app_assoc.
  match goal with
  | |- context [(allocation_events dirname f ++ ?es)%list] =>
      destruct (allocation_events_facts dirname f es) as (A & B & _)
  end.
  rewrite A, B. cbn [app].
  repeat split.
  - cbn. exact QA.
  - cbn [filter is_side_effect]. rewrite QB. reflexivity.
Qed.

End Runs.

(** A run with a topic asks the generator once, right after the
    allocation, for the application named after the number allocated from
    the listing. *)
Lemma run_calls_generator
    (dirname : string)
    (generator : string -> FileSystem -> FileSystem * option string)
    (writer : string -> string -> FileSystem -> FileSystem + string)
    (toUpperCase : string -> string)
    (c : ascii) (rest : string) (f : FileSystem) :
  exists later,
    filter is_side_effect
      (run_events
         (run dirname generator writer toUpperCase (Some (String c rest)) f))
    = (allocation_events dirname f
         ++ ExecSync
              (generate_command
                 (fullExerciseName (nextNumber (projects f)) (String c rest)))
            :: later)%list /\
    Forall (fun e => forall command, e <> ExecSync command) later.
Proof.
  destruct (generator
              (generate_command
                 (fullExerciseName (nextNumber (projects f)) (String c rest))) f)
    as [f' [msg|]] eqn:G.
  - destruct (run_generator_failed dirname generator writer toUpperCase
                c rest f f' msg G)
      as (_ & _ & _ & X & _).
    exists []. split; [exact X|constructor].
  - destruct (manifest_cases dirname (nextNumber (projects f)) (String c rest)
                (package_json f'))
      as [(msg & M & _)|(content & _ & W)].
    + destruct (run_manifest_failed dirname generator writer toUpperCase
                  c rest f f' msg G M)
        as (_ & _ & _ & X & _).
      eexists. split; [exact X|]. repeat constructor; discriminate.
    + destruct (has_dir
                  (fullExerciseName (nextNumber (projects f)) (String c rest))
                  (projects f')) eqn:D.
      * destruct (run_succeeded dirname generator writer toUpperCase
                    c rest f f' content G W D) as (_ & _ & _ & X).
        eexists. split; [exact X|]. repeat constructor; discriminate.
      * destruct (writer
                    (readme_path dirname
                       (fullExerciseName (nextNumber (projects f))
                          (String c rest)))
                    (exerciseReadme toUpperCase (nextNumber (projects f))
                       (String c rest))
                    (mkFileSystem (projects f') (Json content) (readmes f')))
          as [f''|msg] eqn:Wr.
        -- destruct (run_readme_elsewhere dirname generator writer toUpperCase
                       c rest f f' f'' content G W D Wr) as (_ & _ & _ & X).
           eexists. split; [exact X|]. repeat constructor; discriminate.
        -- destruct (run_readme_failed dirname generator writer toUpperCase
                       c rest f f' content msg G W D Wr) as (_ & _ & _ & X).
           eexists. split; [exact X|]. repeat constructor; discriminate.
Qed.

(** ** C3: successive allocations *)




(** ** X11 to X16: whole runs with a topic *)




(** X12. When the generator succeeds but the manifest cannot be used (the
    file is missing, its text is not JSON, or it has no [scripts]: none,
    [null], or a text that is no object), the run prints the error's
    message to standard error and exits with status 1; it writes no file
    and leaves the file system as the generator left it, the generated
    directory included. *)
Theorem manifest_error_stops
    (dirname : string)
    (generator : string -> FileSystem -> FileSystem * option string)
    (writer : string -> string -> FileSystem -> FileSystem + string)
    (toUpperCase : string -> string)
    (c : ascii) (rest msg : string) (f f' : FileSystem) :
  let exerciseName := String c rest in
  let n := nextNumber (projects f) in
  let r := run dirname generator writer toUpperCase (Some exerciseName) f in
  generator (generate_command (fullExerciseName n exerciseName)) f
  = (f', None) ->
  manifest_failure dirname n (package_json f') = Some msg ->
  exit_status r = 1 /\ run_fs r = f' /\
  stderr (run_events r) = [failure_line msg] /\
  filter is_write (run_events r) = [].
Proof.
  intros exerciseName n r G M.
  destruct (run_manifest_failed dirname generator writer toUpperCase
              c rest f f' msg G M)
    as (E & F & S & _ & W).
  auto.
Qed.

Lemma manifest_error_stops_witness :
  manifest_failure "/repo" (nextNumber None)
    (package_json (mkFileSystem (Some ["exercise-01-basics"]) NoFile []))
  = Some (enoent "/repo/package.json") /\
  exit_status
    (run "/repo" (creating_generator "exercise-01-basics") no_directory
        sample_toUpperCase (Some "basics") (mkFileSystem None NoFile [])) = 1 /\
  run_fs
    (run "/repo" (creating_generator "exercise-01-basics") no_directory
        sample_toUpperCase (Some "basics") (mkFileSystem None NoFile []))
  = mkFileSystem (Some ["exercise-01-basics"]) NoFile [].
Proof.
  split; [reflexivity|].
  destruct (manifest_error_stops "/repo"
              (creating_generator "exercise-01-basics") no_directory
              sample_toUpperCase "b" "asics"
              (enoent "/repo/package.json") (mkFileSystem None NoFile []) _
              eq_refl eq_refl)
    as (E & F & _).
  split; [exact E|exact F].
Defined.

(** X13. Nothing is rolled back: when the generator and the manifest
    update succeed, the listing does not show the exercise directory and
    the write of the README fails with a message ([ENOENT] when the
    directory is missing), the run exits with status 1 and the message on
    standard error, and the manifest stays as written; the entries and the
    READMEs are as the generator left them. *)
Theorem readme_error_keeps_manifest
    (dirname : string)
    (generator : string -> FileSystem -> FileSystem * option string)
    (writer : string -> string -> FileSystem -> FileSystem + string)
    (toUpperCase : string -> string)
    (c : ascii) (rest msg : string) (f f' : FileSystem)
    (content : PackageJson) :
  let exerciseName := String c rest in
  let n := nextNumber (projects f) in
  let r := run dirname generator writer toUpperCase (Some exerciseName) f in
  generator (generate_command (fullExerciseName n exerciseName)) f
  = (f', None) ->
  written_manifest n exerciseName (package_json f') = Some content ->
  has_dir (fullExerciseName n exerciseName) (projects f') = false ->
  writer (readme_path dirname (fullExerciseName n exerciseName))
    (exerciseReadme toUpperCase n exerciseName)
    (mkFileSystem (projects f') (Json content) (readmes f'))
  = inr msg ->
  exit_status r = 1 /\
  stderr (run_events r) = [failure_line msg] /\
  package_json (run_fs r) = Json content /\
  readmes (run_fs r) = readmes f' /\
  projects (run_fs r) = projects f'.
Proof.
  intros exerciseName n r G W D Wr.
  destruct (run_readme_failed dirname generator writer toUpperCase
              c rest f f' content msg G W D Wr) as (E & F & S & _).
  fold exerciseName n r in E, F, S. rewrite F.
  cbn [projects package_json readmes]. auto.
Qed.

Lemma readme_error_keeps_manifest_witness :
  has_dir (fullExerciseName (nextNumber (projects sample_fs)) "routing")
    (projects sample_fs) = false /\
  exit_status
    (run "/repo" (fun _ f => (f, None)) no_directory sample_toUpperCase
       (Some "routing") sample_fs) = 1 /\
  stderr
    (run_events
       (run "/repo" (fun _ f => (f, None)) no_directory sample_toUpperCase
          (Some "routing") sample_fs))
  = [failure_line
       (enoent "/repo/projects/exercise-06-routing/README.md")] /\
  package_json
    (run_fs
       (run "/repo" (fun _ f => (f, None)) no_directory sample_toUpperCase
          (Some "routing") sample_fs))
  = Json (mkPackageJson
            (Some [("build:ex06", "ng build exercise-06-routing");
                   ("start:ex01", "ng serve exercise-01-basics --port 4201");
                   ("start:ex06", "ng serve exercise-06-routing --port 4206");
                   ("zzz", "echo z")])
            [("name", "angular-learning")]).
Proof.
  split; [reflexivity|].
  destruct (readme_error_keeps_manifest "/repo" (fun _ f => (f, None))
              no_directory sample_toUpperCase "r" "outing" _
              sample_fs sample_fs _ eq_refl eq_refl eq_refl eq_refl)
    as (E & S & P & _).
  split; [exact E|]. split; [exact S|exact P].
Defined.

(** The ways a run with a topic can go: a stage fails, or all succeed. *)
Lemma run_outcomes
    (dirname : string)
    (generator : string -> FileSystem -> FileSystem * option string)
    (writer : string -> string -> FileSystem -> FileSystem + string)
    (toUpperCase : string -> string)
    (c : ascii) (rest : string) (f : FileSystem) :
  let exerciseName := String c rest in
  let n := nextNumber (projects f) in
  let r := run dirname generator writer toUpperCase (Some exerciseName) f in
  (exists msg,
      exit_status r = 1 /\ stderr (run_events r) = [failure_line msg] /\
      exists done,
        all_side_effects dirname f exerciseName
        = (filter is_side_effect (run_events r) ++ done)%list) \/
  (exists f' content,
      generator (generate_command (fullExerciseName n exerciseName)) f
      = (f', None) /\
      written_manifest n exerciseName (package_json f') = Some content /\
      exit_status r = 0 /\ stderr (run_events r) = [] /\
      filter is_side_effect (run_events r)
      = all_side_effects dirname f exerciseName /\
      package_json (run_fs r) = Json content /\
      (has_dir (fullExerciseName n exerciseName) (projects f') = true ->
       run_fs r = completed_fs toUpperCase n exerciseName f' content)).
Proof.
  intros exerciseName n r.
  destruct (generator (generate_command (fullExerciseName n exerciseName)) f)
    as [f' [msg|]] eqn:G.
  - destruct (run_generator_failed dirname generator writer toUpperCase
                c rest f f' msg G)
      as (E & _ & S & X & _).
    left. exists msg. split; [exact E|]. split; [exact S|].
    fold exerciseName n r in X. rewrite X. unfold all_side_effects.
    fold n. eexists. rewrite <- app_assoc. reflexivity.
  - destruct (manifest_cases dirname n exerciseName (package_json f'))
      as [(msg & M & _)|(content & _ & W)].
    + destruct (run_manifest_failed dirname generator writer toUpperCase
                  c rest f f' msg G M)
        as (E & _ & S & X & _).
      left. exists msg. split; [exact E|]. split; [exact S|].
      fold exerciseName n r in X. rewrite X. unfold all_side_effects.
      fold n. eexists. rewrite <- app_assoc. reflexivity.
    + destruct (has_dir (fullExerciseName n exerciseName) (projects f')) eqn:D.
      * destruct (run_succeeded dirname generator writer toUpperCase
                    c rest f f' content G W D) as (E & F & S & X).
        fold exerciseName n r in E, F, S, X.
        right. exists f', content. split; [reflexivity|].
        repeat (split; [assumption|]). split; [now rewrite F|auto].
      * destruct (writer (readme_path dirname (fullExerciseName n exerciseName))
                    (exerciseReadme toUpperCase n exerciseName)
                    (mkFileSystem (projects f') (Json content) (readmes f')))
          as [f''|msg] eqn:Wr.
        -- destruct (run_readme_elsewhere dirname generator writer toUpperCase
                       c rest f f' f'' content G W D Wr) as (E & F & S & X).
           fold exerciseName n r in E, F, S, X.
           right. exists f', content. split; [reflexivity|].
           repeat (split; [assumption|]). split; [now rewrite F|].
           intros H. rewrite D in H. discriminate H.
        -- destruct (run_readme_failed dirname generator writer toUpperCase
                       c rest f f' content msg G W D Wr) as (E & _ & S & X).
           left. exists msg. split; [exact E|]. split; [exact S|].
           exists []. fold exerciseName n r in X. now rewrite X, app_nil_r.
Qed.

(** X14. Every run exits with status 0 or 1, and with status 0 exactly when
    it printed nothing to standard error: a missing or empty topic and any
    failure of a stage print a message and give status 1. *)
Theorem exit_status_meaning
    (dirname : string)
    (generator : string -> FileSystem -> FileSystem * option string)
    (writer : string -> string -> FileSystem -> FileSystem + string)
    (toUpperCase : string -> string)
    (arg : option string) (f : FileSystem) :
  (exit_status (run dirname generator writer toUpperCase arg f) = 0 \/
   exit_status (run dirname generator writer toUpperCase arg f) = 1) /\
  (exit_status (run dirname generator writer toUpperCase arg f) = 0 <->
   stderr (run_events (run dirname generator writer toUpperCase arg f)) = []).
Proof.
  destruct arg as [[|c rest]|].
  - split; [now right|split; discriminate].
  - destruct (run_outcomes dirname generator writer toUpperCase c rest f)
      as [(msg & E & S & _)|(f' & content & _ & _ & E & S & _)];
      rewrite E, S.
    + split; [now right|split; discriminate].
    + split; [now left|split; reflexivity].
  - split; [now right|split; discriminate].
Qed.

(** X15. Exit status 0 is a promise, as far as the listing and the manifest
    carry it: the run had a non-empty topic, the generator succeeded, and
    the manifest now holds an object of scripts.  Unless [scripts] was a
    number, a boolean or a string, which take no property, the start and
    the build script of the exercise are there with their commands.  When
    the generator left the directory [exercise-<padded>-<topic>] in the
    listing, it is still there and its README holds the rendered text. *)
Theorem success_postcondition
    (dirname : string)
    (generator : string -> FileSystem -> FileSystem * option string)
    (writer : string -> string -> FileSystem -> FileSystem + string)
    (toUpperCase : string -> string)
    (arg : option string) (f : FileSystem) :
  exit_status (run dirname generator writer toUpperCase arg f) = 0 ->
  exists exerciseName f' content members,
    arg = Some exerciseName /\ exerciseName <> "" /\
    generator
      (generate_command
         (fullExerciseName (nextNumber (projects f)) exerciseName)) f
    = (f', None) /\
    package_json (run_fs (run dirname generator writer toUpperCase arg f))
    = Json content /\
    scripts content = Some members /\
    (primitive_scripts (package_json f') = false ->
     JSObject.get (start_key (nextNumber (projects f))) members
     = Some (start_command (nextNumber (projects f)) exerciseName) /\
     JSObject.get (build_key (nextNumber (projects f))) members
     = Some (build_command (nextNumber (projects f)) exerciseName)) /\
    (has_dir (fullExerciseName (nextNumber (projects f)) exerciseName)
       (projects f') = true ->
     has_dir (fullExerciseName (nextNumber (projects f)) exerciseName)
       (projects (run_fs (run dirname generator writer toUpperCase arg f)))
     = true /\
     readme_of (fullExerciseName (nextNumber (projects f)) exerciseName)
       (readmes (run_fs (run dirname generator writer toUpperCase arg f)))
     = Some (exerciseReadme toUpperCase (nextNumber (projects f))
               exerciseName)).
Proof.
  destruct arg as [[|c rest]|]; [discriminate| |discriminate].
  destruct (run_outcomes dirname generator writer toUpperCase c rest f)
    as [(msg & E & _)|(f' & content & G & W & _ & _ & _ & P & F)];
    [rewrite E; discriminate|].
  intros _.
  assert (exists members,
            scripts content = Some members /\
            (primitive_scripts (package_json f') = false ->
             JSObject.get (start_key (nextNumber (projects f))) members
             = Some (start_command (nextNumber (projects f)) (String c rest)) /\
             JSObject.get (build_key (nextNumber (projects f))) members
             = Some (build_command (nextNumber (projects f)) (String c rest))))
    as (members & SC & K).
  { unfold written_manifest in W.
    destruct (package_json f')
      as [|bad|[[members|] others]|[[| |text|elements] others| |]];
      try discriminate; injection W as <-; cbn [scripts primitive_scripts];
      eexists; (split; [reflexivity|]); try discriminate; intros _.
    - destruct (update_scripts_general (nextNumber (projects f))
                  (String c rest) _ (JSON_parse_NoDup members))
        as (_ & _ & S & B).
      split; assumption.
    - destruct (update_scripts_general (nextNumber (projects f))
                  (String c rest) _ (JSON_parse_NoDup (indexed elements)))
        as (_ & _ & S & B).
      split; assumption. }
  exists (String c rest), f', content, members.
  split; [reflexivity|]. split; [discriminate|]. split; [exact G|].
  split; [exact P|]. split; [exact SC|]. split; [exact K|].
  intros D. rewrite (F D). unfold completed_fs.
  cbn [projects package_json readmes].
  split; [exact D|apply readme_of_written].
Qed.

Lemma success_postcondition_witness :
  exit_status
    (run "/repo" (creating_generator "exercise-06-routing") no_directory
        sample_toUpperCase (Some "routing") sample_fs) = 0 /\
  exists exerciseName f' content members,
    Some "routing" = Some exerciseName /\ exerciseName <> "" /\
    creating_generator "exercise-06-routing"
      (generate_command
         (fullExerciseName (nextNumber (projects sample_fs)) exerciseName))
      sample_fs
    = (f', None) /\
    package_json
      (run_fs
         (run "/repo" (creating_generator "exercise-06-routing") no_directory
             sample_toUpperCase (Some "routing") sample_fs))
    = Json content /\
    scripts content = Some members.
Proof.
  assert (exit_status
            (run "/repo" (creating_generator "exercise-06-routing")
               no_directory sample_toUpperCase (Some "routing") sample_fs)
          = 0) as H by reflexivity.
  split; [exact H|].
  destruct (success_postcondition "/repo"
              (creating_generator "exercise-06-routing") no_directory
              sample_toUpperCase (Some "routing") sample_fs H)
    as (exerciseName & f' & content & members & A & B & G & P & S & _).
  exists exerciseName, f', content, members. auto.
Defined.

(** The promise of status 0 goes no further.  With the topic [x/..] the
    path of the README is [projects/README.md]; when that write succeeds
    the run exits with status 0 and no directory of the exercise is in the
    listing.  With a manifest whose [scripts] is a number the run exits
    with status 0 and the manifest holds no script of the exercise. *)
Example success_without_exercise :
  readme_path "/repo" (fullExerciseName (Fin 6) "x/..")
  = "/repo/projects/README.md" /\
  (let r := run "/repo" (fun _ f => (f, None)) (fun _ _ f => inl f)
              sample_toUpperCase (Some "x/..") sample_fs in
   exit_status r = 0 /\
   has_dir (fullExerciseName (Fin 6) "x/..") (projects (run_fs r)) = false) /\
  (let r := run "/repo" (creating_generator "exercise-01-basics")
              no_directory sample_toUpperCase (Some "basics")
              (mkFileSystem None
                 (OtherJson (OddScripts ScriptsAtom [])) []) in
   exit_status r = 0 /\
   package_json (run_fs r) = Json (mkPackageJson (Some []) [])).
Proof. repeat split. Qed.

(** X16. Whatever happens, the calls a run with a topic makes to the
    outside are an initial part of one fixed sequence: the directory check
    and listing, one generator call, the read of the manifest, its write,
    and the write of the README.  So the generator runs at most once and
    before any file is read or written, and the manifest is written before
    the README. *)
Theorem side_effects_in_order
    (dirname : string)
    (generator : string -> FileSystem -> FileSystem * option string)
    (writer : string -> string -> FileSystem -> FileSystem + string)
    (toUpperCase : string -> string)
    (exerciseName : string) (f : FileSystem) :
  exists not_done,
    all_side_effects dirname f exerciseName
    = (filter is_side_effect
         (run_events
            (run dirname generator writer toUpperCase (Some exerciseName) f))
       ++ not_done)%list.
Proof.
  destruct exerciseName as [|c rest].
  - eexists. reflexivity.
  - destruct (run_outcomes dirname generator writer toUpperCase c rest f)
      as [(msg & _ & _ & done & X)|(f' & content & _ & _ & _ & _ & X & _)].
    + now exists done.
    + exists []. now rewrite X, app_nil_r.
Qed.

(** ** X17 to X19: one run after another *)

(** Parsing the members of an object in the order of [Object.keys] gives
    the object back. *)
Lemma JSON_parse_object (o : JSObject.t) :
  NoDup (JSObject.keys o) -> index_ordered o -> JSObject.JSON_parse o = o.
Proof.
  intros ND Ord. unfold JSObject.JSON_parse.
  assert (forall o2 o1 : JSObject.t, o = (o1 ++ o2)%list ->
            fold_left (fun o m => JSObject.define (fst m) (snd m) o) o2 o1 = o)
    as G.
  { induction o2 as [|[k v] o2 IH]; intros o1 E.
    - cbn. now rewrite E, app_nil_r.
    - cbn [fold_left fst snd].
      assert (JSObject.keys o
              = (JSObject.keys o1 ++ k :: JSObject.keys o2)%list) as EK
        by (rewrite E, keys_app; reflexivity).
      assert (~ In k (JSObject.keys o1)) as NI.
      { rewrite EK in ND. apply NoDup_remove_2 in ND.
        intros C. apply ND, in_or_app. now left. }
      assert (JSObject.define k v o1 = (o1 ++ [(k, v)])%list) as S.
      { unfold JSObject.define. apply has_own_not_In in NI. rewrite NI.
        destruct (JSObject.is_array_index k) eqn:I; [|reflexivity].
        apply insert_index_append. intros k' Hk.
        exact (Ord _ _ _ EK I k' Hk). }
      rewrite S. apply IH. rewrite E, <- app_assoc. reflexivity. }
  now apply (G o JSObject.empty).
Qed.

(** X17. The scripts the update writes to the manifest parse back to the
    same object, keys in the same order: no key is written twice and the
    order written is the one [JSON.parse] rebuilds. *)
Theorem written_scripts_round_trip (n : number) (exerciseName : string)
    (members : list (string * string)) :
  JSObject.JSON_parse
    (JSObject.JSON_stringify
       (update_scripts n exerciseName (JSObject.JSON_parse members)))
  = update_scripts n exerciseName (JSObject.JSON_parse members).
Proof.
  destruct (add_scripts_spec n exerciseName _ (JSON_parse_NoDup members))
    as (ND & _).
  destruct (sortedScripts_general _ ND) as (N1 & O1 & _).
  unfold JSObject.JSON_stringify. now apply JSON_parse_object.
Qed.

(** X18. A later exercise does not disturb the scripts of an earlier one:
    after the update for number [n] has been written and the manifest is
    read again and updated for a different number [m], the start and build
    scripts of [n] are still there with their commands.  This holds for all
    doubles [n] and [m], of any size: [String] keeps different doubles
    apart. *)
Theorem later_update_keeps_earlier_scripts (n m : N) (t t' : string)
    (members : list (string * string)) :
  is_double n -> is_double m -> n <> m ->
  JSObject.get (start_key (Fin n))
    (update_scripts (Fin m) t'
       (JSObject.JSON_parse
          (JSObject.JSON_stringify
             (update_scripts (Fin n) t (JSObject.JSON_parse members)))))
  = Some (start_command (Fin n) t) /\
  JSObject.get (build_key (Fin n))
    (update_scripts (Fin m) t'
       (JSObject.JSON_parse
          (JSObject.JSON_stringify
             (update_scripts (Fin n) t (JSObject.JSON_parse members)))))
  = Some (build_command (Fin n) t).
Proof.
  intros Dn Dm NE.
  destruct (update_scripts_general (Fin n) t _ (JSON_parse_NoDup members))
    as (_ & _ & S & B).
  set (u := JSObject.JSON_stringify
              (update_scripts (Fin n) t (JSObject.JSON_parse members))) in *.
  destruct (update_scripts_general (Fin m) t' _ (JSON_parse_NoDup u))
    as (_ & O & _).
  assert (JSObject.JSON_parse u
          = update_scripts (Fin n) t (JSObject.JSON_parse members)) as RT.
  { subst u. unfold JSObject.JSON_stringify.
    destruct (add_scripts_spec (Fin n) t _ (JSON_parse_NoDup members))
      as (ND & _).
    destruct (sortedScripts_general _ ND) as (N1 & O1 & _).
    now apply JSON_parse_object. }
  assert (paddedNumber (Fin n) <> paddedNumber (Fin m))
    as P by (intros E; now apply NE, paddedNumber_inj).
  split.
  - rewrite O, RT; [exact S| | |discriminate].
    + unfold start_key, shortName. intros E.
      apply (append_inj_l "start:ex") in E. now apply P.
    + discriminate.
  - rewrite O, RT; [exact B| | |discriminate].
    + discriminate.
    + unfold build_key, shortName. intros E.
      apply (append_inj_l "build:ex") in E. now apply P.
Qed.

Lemma later_update_keeps_earlier_scripts_witness :
  is_double 6 /\ is_double 7 /\ 6 <> 7 /\
  JSObject.get (start_key (Fin 6))
    (update_scripts (Fin 7) "forms"
       (JSObject.JSON_parse
          (JSObject.JSON_stringify
             (update_scripts (Fin 6) "routing"
                (JSObject.JSON_parse [("test", "ng test"); ("7", "echo")])))))
  = Some (start_command (Fin 6) "routing").
Proof.
  assert (6 <> 7) as H by discriminate.
  assert (is_double 6) as D6 by reflexivity.
  assert (is_double 7) as D7 by reflexivity.
  split; [exact D6|]. split; [exact D7|]. split; [exact H|].
  exact (proj1 (later_update_keeps_earlier_scripts 6 7 "routing" "forms"
                  [("test", "ng test"); ("7", "echo")] D6 D7 H)).
Defined.

(** X19. Every non-empty argument is taken as the topic without further
    checks: the run calls the generator exactly once, right after the
    allocation, with the command line that carries the topic verbatim. *)
Theorem generator_called_once
    (dirname : string)
    (generator : string -> FileSystem -> FileSystem * option string)
    (writer : string -> string -> FileSystem -> FileSystem + string)
    (toUpperCase : string -> string)
    (c : ascii) (rest : string) (f : FileSystem) :
  exists later,
    filter is_side_effect
      (run_events
         (run dirname generator writer toUpperCase (Some (String c rest)) f))
    = (allocation_events dirname f
         ++ ExecSync
              ("ng generate application exercise-"
                 ++ paddedNumber (nextNumber (projects f)) ++ "-"
                 ++ String c rest ++ " --routing=false --style=css")
            :: later)%list /\
    Forall (fun e => forall command, e <> ExecSync command) later.
Proof.
  assert (generate_command
            (fullExerciseName (nextNumber (projects f)) (String c rest))
          = "ng generate application exercise-"
              ++ paddedNumber (nextNumber (projects f)) ++ "-"
              ++ String c rest ++ " --routing=false --style=css") as CMD.
  { unfold generate_command, fullExerciseName.
    rewrite !append_assoc. reflexivity. }
  rewrite <- CMD. apply run_calls_generator.
Qed.
